(** * HackEEG acquisition core: frame reader, acquisition loop, gap detector

    A shallow embedding of [src/hackeeg/acquire_data.cpp] and the properties
    of its parts:

    - [read_data_from_serial_port] and [read_response] (the frame reader and
      the call into the msgpack unpacker),
    - [acquire_data_cpp] (default resolution, the bounded loop, the elapsed
      time expression),
    - [find_dropped_samples] (the gap detector of class [HackEEGDriver]).

    Conventions.  A C++ [int] is a [Z] and every implicit conversion to [int]
    is written out with [to_int]; [float] and [double] are the IEEE 754
    binary32 and binary64 numbers of the Standard Library's [SpecFloat], with
    rounding to nearest, ties to even, and every conversion between [int],
    [float] and [double] is written out; a conversion whose behaviour C++
    leaves undefined ends the run in the outcome [Undefined];
    [std::unordered_set] is stdpp's [gset]; the serial port, the system clock
    and [std::cout] are fields of an explicit [world] threaded through a
    state-and-exception monad; the two [while] loops take fuel, the test of the loop coming
    before the use of fuel, so that a loop whose test fails returns with any
    fuel. *)

From Stdlib Require Import ZArith QArith Lia List.
From Stdlib Require Import SpecFloat.
From Stdlib.Strings Require Import Byte.
From stdpp Require Import base option list gmap sets.

Local Open Scope Z_scope.

(** ** Machine integers *)

Definition INT_MIN : Z := - 2 ^ 31.
Definition INT_MAX : Z := 2 ^ 31 - 1.

Definition in_int (z : Z) : Prop := INT_MIN ≤ z ≤ INT_MAX.

(** Conversion of an integer value to a 32-bit [int] (two's complement). *)
Definition to_int (z : Z) : Z := (z + 2 ^ 31) `mod` 2 ^ 32 - 2 ^ 31.

(** ** Floating-point numbers *)

(** [float] is binary32 (24 bits of precision, exponents below 128),
    [double] is binary64 (53 bits, exponents below 1024). *)
Definition float : Type := spec_float.
Definition double : Type := spec_float.

(** Conversion of an [int] to [float], as in [duration * speed] and in the
    comparison [duration == 0]. *)
Definition float_of_int (z : Z) : float := binary_normalize 24 128 z 0 false.

(** The product of two [float]s. *)
Definition float_mul (x y : float) : float := SFmul 24 128 x y.

(** The comparison [x == 0] of a [float] with the [int] 0: true of both
    zeros, false of a NaN. *)
Definition float_is_zero (x : float) : bool := SFeqb x (float_of_int 0).

(** Conversion of a [float] to [int]: the fraction is dropped (truncation
    towards zero).  The behaviour is undefined, here [None], when the
    truncated value does not fit an [int], and for infinities and NaN. *)
Definition float_to_int (x : float) : option Z :=
  match x with
  | S754_zero _ => Some 0
  | S754_finite s m e =>
      let magnitude := if 0 <=? e then Z.pos m * 2 ^ e else Z.pos m / 2 ^ (- e) in
      let z := cond_Zopp s magnitude in
      if (INT_MIN <=? z) && (z <=? INT_MAX) then Some z else None
  | _ => None
  end.

(** Conversion of an integer count (the [rep] of a [std::chrono] duration)
    to [double]. *)
Definition double_of_int (z : Z) : double := binary_normalize 53 1024 z 0 false.

Definition double_sub (x y : double) : double := SFsub 53 1024 x y.

Definition double_div (x y : double) : double := SFdiv 53 1024 x y.

(** Conversion of a [double] to [float], as when the [double] third
    component of [std::make_tuple] is stored in the [float] slot of the
    returned tuple. *)
Definition double_to_float (x : double) : float :=
  match x with
  | S754_finite s m e => binary_round 24 128 s m e
  | _ => x
  end.

(** The expression [end_time - start_time / 1000.0] of line 114, evaluated
    in [double] and stored as a [float]. *)
Definition elapsed_expression (end_time start_time : double) : float :=
  double_to_float (double_sub end_time (double_div start_time (double_of_int 1000))).

(** The rational number a finite floating-point value stands for (0 for
    the zeros; infinities and NaN stand for no number and are given 0). *)
Definition float_value (x : spec_float) : Q :=
  match x with
  | S754_finite s m e =>
      if 0 <=? e then inject_Z (cond_Zopp s (Z.pos m) * 2 ^ e)
      else cond_Zopp s (Z.pos m) # 2 ^ Z.to_pos (- e)
  | _ => 0
  end.

(** ** Gap detector: [HackEEGDriver::find_dropped_samples] *)

Section GapDetector.

(** [get_sample_number] has no body in the source (its body is a comment);
    the detector is verified for every such extraction function. *)
Variable get_sample_number : Z → Z.

(** First loop: [sample_numbers.insert(get_sample_number(sample))]. *)
Definition sample_numbers (samples : list Z) : gset Z :=
  foldl (λ acc sample, {[ get_sample_number sample ]} ∪ acc) ∅ samples.

(** Second loop: [for (index = 0; index < number_of_samples; index++)
    correct_sequence.insert(index)]. *)
Definition correct_sequence (number_of_samples : Z) : gset Z :=
  foldl (λ acc index, {[ index ]} ∪ acc) ∅ (seqZ 0 number_of_samples).

(** Third loop: walk [correct_sequence] (in the container's own order) and
    push every number for which [sample_numbers.find] reaches [end()]. *)
Definition missing_samples (samples : list Z) (number_of_samples : Z) : list Z :=
  let present := sample_numbers samples in
  foldl (λ missing sample_number,
           if decide (sample_number ∈ present) then missing
           else missing ++ [sample_number])
        [] (elements (correct_sequence number_of_samples)).

(** [return missing_samples.size();] converted to the [int] result. *)
Definition find_dropped_samples (samples : list Z) (number_of_samples : Z) : Z :=
  to_int (Z.of_nat (length (missing_samples samples number_of_samples))).

(** The specification's wording: the reference set, the present set, and
    the cardinality of their difference. *)
Definition reference_set (expected_count : Z) : gset Z :=
  list_to_set (seqZ 0 expected_count).

Definition present_set (samples : list Z) : gset Z :=
  list_to_set (get_sample_number <$> samples).

Definition dropped_spec (samples : list Z) (expected_count : Z) : Z :=
  Z.of_nat (size (reference_set expected_count ∖ present_set samples)).

End GapDetector.

(** ** The outside world and the monad of effects *)

(** What one call of [read(fd, buf, count)] finds on the serial port: some
    bytes that have arrived, or a failure (the call returns [-1]). *)
Inductive read_event : Type :=
| ReadBytes (bs : list byte)
| ReadError.

(** The C++ exceptions that can leave the code: [std::length_error] from
    [std::vector::resize], [msgpack::parse_error] from [unpacker::next]. *)
Inductive exn : Type :=
| length_error
| parse_error.

Section Acquisition.

(** [msgpack::object], and the unpacker run over one buffer: [pac.next(oh)]
    is called until it yields no further complete object; [None] stands for
    the [msgpack::parse_error] it throws on malformed input.  msgpack is an
    external library, so the development is parametric in it. *)
Variable object : Type.
Variable unpack : list byte → option (list object).

(** - [serial]: the events still to come on the port, in order; once the list
      is used up every [read] returns 0 bytes;
    - [clock], [ticks]: the value of [system_clock::now()] in microseconds at
      its n-th reading, and the number of readings taken so far;
    - [stdout]: what has been sent to [std::cout]. *)
Record world : Type := World {
  serial : list read_event;
  clock : nat → Z;
  ticks : nat;
  stdout : list (list object)
}.

(** How a run ends: it returns, it is left by an exception, it is still
    running when the fuel is used up, or it has reached an operation whose
    behaviour C++ leaves undefined. *)
Inductive outcome (A : Type) : Type :=
| Returned (a : A) (w : world)
| Thrown (e : exn) (w : world)
| OutOfFuel
| Undefined.

Arguments Returned {A} a w.
Arguments Thrown {A} e w.
Arguments OutOfFuel {A}.
Arguments Undefined {A}.

Definition M (A : Type) : Type := world → outcome A.

#[global] Instance M_ret : MRet M := λ A a w, Returned a w.

#[global] Instance M_bind : MBind M := λ A B f m w,
  match m w with
  | Returned a w' => f a w'
  | Thrown e w' => Thrown e w'
  | OutOfFuel => OutOfFuel
  | Undefined => Undefined
  end.

Definition throw {A : Type} (e : exn) : M A := λ w, Thrown e w.

Definition out_of_fuel {A : Type} : M A := λ _, OutOfFuel.

Definition undefined {A : Type} : M A := λ _, Undefined.

(** [system_clock::now().time_since_epoch()] as a count of microseconds. *)
Definition now : M Z := λ w,
  Returned (clock w (ticks w))
           (World (serial w) (clock w) (S (ticks w)) (stdout w)).

(** [std::cout << samples.back() << std::endl]. *)
Definition display (sample : list object) : M unit := λ w,
  Returned tt (World (serial w) (clock w) (ticks w) (stdout w ++ [sample])).

(** The system call [read(fd, buf, count)]: at most [count] of the bytes that
    have arrived are delivered, the others stay on the port; the result is
    the returned length together with the bytes stored into [buf]. *)
Definition sys_read (count : nat) : M (Z * list byte) := λ w,
  match serial w with
  | [] => Returned (0, []) w
  | ReadError :: rest =>
      Returned (-1, []) (World rest (clock w) (ticks w) (stdout w))
  | ReadBytes bs :: rest =>
      let got := take count bs in
      let left := drop count bs in
      let rest' := match left with [] => rest | _ => ReadBytes left :: rest end in
      Returned (Z.of_nat (length got), got)
               (World rest' (clock w) (ticks w) (stdout w))
  end.

(** ** Frame reader *)

Definition FRAME_SIZE : nat := 38.

(** [std::vector<char>::max_size()]. *)
Definition vector_max_size : Z := 2 ^ 63 - 1.

(** [buffer.resize(len)] with [len] an [ssize_t]: the argument is converted
    to [size_t]; a size above [max_size()] throws [std::length_error]. *)
Definition vector_resize (buffer : list byte) (len : Z) : M (list byte) :=
  let n := len `mod` 2 ^ 64 in
  if vector_max_size <? n then throw length_error
  else mret (take (Z.to_nat n) buffer
             ++ replicate (Z.to_nat n - length buffer) x00).

(** [read_data_from_serial_port(fd)].  The branch [if (len == -1)] is empty
    in the source (it holds a comment only), so it is no step of the model:
    control reaches [resize] with [len = -1] as with any other length. *)
Definition read_data_from_serial_port : M (list byte) :=
  let buffer := replicate FRAME_SIZE x00 in
  '(len, got) ← sys_read (length buffer);
  let buffer := got ++ drop (length got) buffer in
  vector_resize buffer len.

(** The loop [while (raw_data.size() < 38) raw_data += read_data_from_serial_port(fd)]. *)
Fixpoint read_until_enough (fuel : nat) (raw_data : list byte) : M (list byte) :=
  if (length raw_data <? FRAME_SIZE)%nat then
    match fuel with
    | O => out_of_fuel
    | S fuel' =>
        more ← read_data_from_serial_port;
        read_until_enough fuel' (raw_data ++ more)
    end
  else mret raw_data.

(** Lines 43 to 51 of [read_response]: the bytes that are fed to the unpacker. *)
Definition read_raw_data (fuel : nat) : M (list byte) :=
  raw_data ← read_data_from_serial_port;
  if (length raw_data <? FRAME_SIZE)%nat then read_until_enough fuel raw_data
  else mret raw_data.

(** [read_response(fd)]. *)
Definition read_response (fuel : nat) : M (list object) :=
  raw_data ← read_raw_data fuel;
  match unpack raw_data with
  | Some unpacked_data => mret unpacked_data
  | None => throw parse_error
  end.

(** ** Acquisition loop *)

(** The members read through [this->]. *)
Record HackEEG : Type := {
  max_samples_ : Z;
  duration_ : float;
  speed_ : Z
}.

(** The values of [max_samples], [duration], [speed] and [max_sample_time]
    once line 80 is reached; [max_sample_time] is [None] when the conversion
    of the product to [int] is undefined. *)
Record parameters : Type := Parameters {
  p_max_samples : Z;
  p_duration : float;
  p_speed : Z;
  p_max_sample_time : option Z
}.

(** Lines 68 to 80: the three defaults and [int max_sample_time = duration * speed]. *)
Definition resolve_parameters (self : HackEEG)
    (max_samples : Z) (duration : float) (speed : Z) : parameters :=
  let max_samples := if max_samples =? 0 then max_samples_ self else max_samples in
  let duration := if float_is_zero duration then duration_ self else duration in
  let speed := if speed =? 0 then speed_ self else speed in
  let max_sample_time := float_to_int (float_mul duration (float_of_int speed)) in
  Parameters max_samples duration speed max_sample_time.

(** The variables the loop changes. *)
Record loop_state : Type := LoopState {
  samples : list (list object);
  sample_counter : Z;
  end_time : double
}.

(** One turn of the loop body, lines 94 to 107.  [samples.back()], which
    is displayed, is the [result] pushed just before. *)
Definition loop_body (fuel : nat) (display_output : bool) (st : loop_state) : M loop_state :=
  result ← read_response fuel;
  t ← now;
  let end_time := double_of_int t in
  let sample_counter := to_int (sample_counter st + 1) in
  let samples := samples st ++ [result] in
  _ ← (if display_output then display result else mret tt);
  mret (LoopState samples sample_counter end_time).

(** [while ((sample_counter < max_samples) && (sample_counter < max_sample_time))]. *)
Definition loop_condition (max_samples max_sample_time : Z) (st : loop_state) : bool :=
  (sample_counter st <? max_samples) && (sample_counter st <? max_sample_time).

Fixpoint acquire_loop (read_fuel fuel : nat) (max_samples max_sample_time : Z)
    (display_output : bool) (st : loop_state) : M loop_state :=
  if loop_condition max_samples max_sample_time st then
    match fuel with
    | O => out_of_fuel
    | S fuel' =>
        st' ← loop_body read_fuel display_output st;
        acquire_loop read_fuel fuel' max_samples max_sample_time display_output st'
    end
  else mret st.

(** [acquire_data_cpp].  [end_time] is read first, [start_time] second
    (lines 91 and 92); the result is the tuple [(samples, sample_counter,
    end_time - start_time / 1000.0)], where the division binds tighter than
    the subtraction; the expression is evaluated in [double] and stored in
    the [float] slot of the tuple.  The same [fuel] bounds the turns of the
    loop and the reads of each [read_response]. *)
Definition acquire_data_cpp (self : HackEEG) (fuel : nat)
    (max_samples : Z) (duration : float) (speed : Z) (display_output : bool)
    : M (list (list object) * Z * float) :=
  let p := resolve_parameters self max_samples duration speed in
  match p_max_sample_time p with
  | None => undefined
  | Some max_sample_time =>
      t ← now;
      let end_time0 := double_of_int t in
      t ← now;
      let start_time := double_of_int t in
      st ← acquire_loop fuel fuel (p_max_samples p) max_sample_time
             display_output (LoopState [] 0 end_time0);
      mret (samples st, sample_counter st,
            elapsed_expression (end_time st) start_time)
  end.

End Acquisition.

Arguments World {object} serial clock ticks stdout.
Arguments serial {object} _.
Arguments clock {object} _ _.
Arguments ticks {object} _.
Arguments stdout {object} _.
Arguments Returned {object A} a w.
Arguments Thrown {object A} e w.
Arguments OutOfFuel {object A}.
Arguments Undefined {object A}.
Arguments throw {object A} e w.
Arguments out_of_fuel {object A} w.
Arguments undefined {object A} w.
Arguments now {object} w.
Arguments display {object} sample w.
Arguments sys_read {object} count w.
Arguments vector_resize {object} buffer len w.
Arguments read_data_from_serial_port {object} w.
Arguments read_until_enough {object} fuel raw_data w.
Arguments read_raw_data {object} fuel w.
Arguments read_response {object} unpack fuel w.
Arguments LoopState {object} samples sample_counter end_time.
Arguments samples {object} _.
Arguments sample_counter {object} _.
Arguments end_time {object} _.
Arguments loop_body {object} unpack fuel display_output st w.
Arguments loop_condition {object} max_samples max_sample_time st.
Arguments acquire_loop {object} unpack read_fuel fuel max_samples max_sample_time
  display_output st w.
Arguments acquire_data_cpp {object} unpack self fuel max_samples duration speed
  display_output w.

(** All the bytes that are still to be delivered by a list of port events. *)
Fixpoint pending_bytes (events : list read_event) : list byte :=
  match events with
  | [] => []
  | ReadBytes bs :: rest => bs ++ pending_bytes rest
  | ReadError :: rest => pending_bytes rest
  end.

(** ** Concrete data for the examples *)

(** The one-byte integers of the msgpack format: a byte below 0x80 is the
    complete object of that value (positive fixint), a byte from 0xe0 up is
    the complete object of its value less 256 (negative fixint, 0xff being
    -1).  The byte 0xc1 is never used by the format and makes the unpacker
    throw [msgpack::parse_error].  The other bytes, 0x80 to 0xdf, begin
    objects of other kinds; they are outside this fragment, which gives
    them no decoding, and no example uses them. *)
Fixpoint fixint_unpack (buf : list byte) : option (list Z) :=
  match buf with
  | [] => Some []
  | b :: rest =>
      let n := Z.of_N (Byte.to_N b) in
      if n <? 128 then (λ objs, n :: objs) <$> fixint_unpack rest
      else if 224 <=? n then (λ objs, (n - 256) :: objs) <$> fixint_unpack rest
      else None
  end.

(** A frame of 38 bytes, each the fixint 1. *)
Definition frame_of_ones : list byte := replicate 38 x01.

(** A clock, in microseconds: 1 s at its first two readings (taken within
    the same microsecond), 2 ms later at the third, 4 ms later from then on. *)
Definition clock_2ms (n : nat) : Z :=
  match n with
  | 0%nat | 1%nat => 1000000
  | 2%nat => 1002000
  | _ => 1004000
  end.

(** A driver configured for 5 samples, 1 s at 250 samples per second. *)
Definition driver_5_1_250 : HackEEG :=
  {| max_samples_ := 5; duration_ := float_of_int 1; speed_ := 250 |}.

(** A driver whose three defaults are zero. *)
Definition driver_zero : HackEEG :=
  {| max_samples_ := 0; duration_ := float_of_int 0; speed_ := 0 |}.

(** The port delivers the given events; no clock reading taken, nothing printed. *)
Definition fresh_world (events : list read_event) : world Z :=
  World events clock_2ms 0 [].

(** 0.7f, the [float] nearest to 0.7: 11744051 / 2^24. *)
Definition float_0_7 : float := S754_finite false 11744051 (-24).

(** A frame of 38 bytes, each the fixint 2. *)
Definition frame_of_twos : list byte := replicate 38 x02.

(** 38 bytes 0xc1, the byte the msgpack format never uses. *)
Definition frame_of_c1 : list byte := replicate 38 xc1.

(** 0.5f and 2.5f, both exact in [float]. *)
Definition float_0_5 : float := S754_finite false 8388608 (-24).
Definition float_2_5 : float := S754_finite false 10485760 (-22).

(** ** What a computation may touch *)

Section PortOnly.

Context {object : Type}.

(** The world [w] with its port replaced. *)
Definition on_port (w : world object) (events : list read_event) : world object :=
  World events (clock w) (ticks w) (stdout w).

(** A world that is a port and nothing else. *)
Definition port_world (events : list read_event) : world object :=
  World events (λ _, 0) 0 [].

(** An outcome whose final world keeps its port only, the clock and the
    standard output being those of [w]. *)
Definition outcome_on_port {A : Type} (w : world object) (o : outcome object A)
    : outcome object A :=
  match o with
  | Returned a w' => Returned a (on_port w (serial w'))
  | Thrown e w' => Thrown e (on_port w (serial w'))
  | OutOfFuel => OutOfFuel
  | Undefined => Undefined
  end.

(** A computation that reads and changes the port and nothing else. *)
Definition port_only {A : Type} (m : M object A) : Prop :=
  ∀ w, m w = outcome_on_port w (m (port_world (serial w))).

End PortOnly.

(** * Properties *)

(** ** Machine integers *)

Lemma to_int_id z : in_int z → to_int z = z.
Proof.
  unfold in_int, to_int, INT_MIN, INT_MAX. intros Hz.
  rewrite Z.mod_small; lia.
Qed.

Lemma to_int_succ c cap : in_int cap → 0 ≤ c → c < cap → to_int (c + 1) = c + 1.
Proof.
  unfold in_int, INT_MIN, INT_MAX. intros Hcap H0 Hlt.
  apply to_int_id. unfold in_int, INT_MIN, INT_MAX. lia.
Qed.

(** ** Gap detector *)

Section GapDetectorFacts.

Variable get_sample_number : Z → Z.

(** The two insertion loops build the sets the specification names. *)
Lemma sample_numbers_present samples :
  sample_numbers get_sample_number samples = present_set get_sample_number samples.
Proof.
  unfold sample_numbers, present_set.
  enough (H : ∀ acc : gset Z,
             foldl (λ acc sample, {[ get_sample_number sample ]} ∪ acc) acc samples
             = list_to_set (get_sample_number <$> samples) ∪ acc).
  { rewrite H. set_solver. }
  induction samples as [|s samples IH]; intros acc; simpl.
  - set_solver.
  - rewrite IH. set_solver.
Qed.

Lemma correct_sequence_reference n : correct_sequence n = reference_set n.
Proof.
  unfold correct_sequence, reference_set.
  generalize (seqZ 0 n). intros l.
  enough (H : ∀ acc : gset Z,
             foldl (λ acc index, {[ index ]} ∪ acc) acc l = list_to_set l ∪ acc).
  { rewrite H. set_solver. }
  induction l as [|k l IH]; intros acc; simpl.
  - set_solver.
  - rewrite IH. set_solver.
Qed.

Lemma elem_of_reference_set n k : k ∈ reference_set n ↔ 0 ≤ k < n.
Proof.
  unfold reference_set. rewrite elem_of_list_to_set, elem_of_seqZ. lia.
Qed.

(** The third loop is a filter of the reference numbers. *)
Lemma missing_samples_filter samples n :
  missing_samples get_sample_number samples n
  = filter (λ k, k ∉ present_set get_sample_number samples)
      (elements (reference_set n)).
Proof.
  unfold missing_samples.
  rewrite sample_numbers_present, correct_sequence_reference.
  generalize (elements (reference_set n)). intros l.
  enough (H : ∀ acc,
             foldl (λ missing k,
                      if decide (k ∈ present_set get_sample_number samples)
                      then missing else missing ++ [k]) acc l
             = acc ++ filter (λ k, k ∉ present_set get_sample_number samples) l).
  { apply H. }
  induction l as [|k l IH]; intros acc; simpl.
  - by rewrite app_nil_r.
  - rewrite IH, filter_cons.
    destruct (decide (k ∈ present_set get_sample_number samples)).
    + rewrite decide_False by tauto. done.
    + rewrite decide_True by done. by rewrite <- app_assoc.
Qed.

Lemma elem_of_missing_samples samples n k :
  k ∈ missing_samples get_sample_number samples n
  ↔ k ∈ reference_set n ∖ present_set get_sample_number samples.
Proof.
  rewrite missing_samples_filter, list_elem_of_filter, elem_of_elements.
  set_solver.
Qed.

Lemma NoDup_missing_samples samples n :
  NoDup (missing_samples get_sample_number samples n).
Proof.
  rewrite missing_samples_filter. apply NoDup_filter, NoDup_elements.
Qed.

Lemma missing_samples_set samples n :
  list_to_set (missing_samples get_sample_number samples n)
  = reference_set n ∖ present_set get_sample_number samples.
Proof.
  apply set_eq. intros k. by rewrite elem_of_list_to_set, elem_of_missing_samples.
Qed.

Lemma length_missing_samples samples n :
  length (missing_samples get_sample_number samples n)
  = size (reference_set n ∖ present_set get_sample_number samples).
Proof.
  unfold size, set_size. simpl. apply Permutation_length, NoDup_Permutation.
  - apply NoDup_missing_samples.
  - apply NoDup_elements.
  - intros k. by rewrite elem_of_missing_samples, elem_of_elements.
Qed.

Lemma size_reference_set n : size (reference_set n) = Z.to_nat n.
Proof.
  unfold reference_set. rewrite size_list_to_set by apply NoDup_seqZ.
  apply length_seqZ.
Qed.

Lemma length_missing_samples_le samples n :
  (length (missing_samples get_sample_number samples n) ≤ Z.to_nat n)%nat.
Proof.
  rewrite length_missing_samples, <- size_reference_set.
  apply subseteq_size. set_solver.
Qed.

Lemma find_dropped_samples_by_sets samples n :
  find_dropped_samples get_sample_number samples n
  = to_int (Z.of_nat (size (reference_set n ∖ present_set get_sample_number samples))).
Proof. unfold find_dropped_samples. by rewrite length_missing_samples. Qed.

Lemma present_set_Permutation samples samples' :
  samples ≡ₚ samples' →
  present_set get_sample_number samples = present_set get_sample_number samples'.
Proof.
  intros Hp. unfold present_set. apply set_eq. intros k.
  rewrite !elem_of_list_to_set. by rewrite Hp.
Qed.

Lemma present_set_duplicate s samples :
  get_sample_number s ∈ present_set get_sample_number samples →
  present_set get_sample_number (s :: samples) = present_set get_sample_number samples.
Proof. unfold present_set. rewrite fmap_cons, list_to_set_cons. set_solver. Qed.

(** C3: for every list of samples and every expected count (an [int]; the
    negative ones are covered as well), [find_dropped_samples] returns the
    cardinality of the set difference between {0, ..., expected_count-1} and
    the set of the samples' sequence numbers, and the vector it counts holds
    exactly the members of that difference.  In particular, for an expected
    count of 5 and samples whose sequence numbers are {0, 1, 3}, the result
    is 2 and the missing numbers are {2, 4}. *)
Theorem find_dropped_samples_set_difference (samples : list Z) (expected_count : Z) :
  in_int expected_count →
  find_dropped_samples get_sample_number samples expected_count
    = dropped_spec get_sample_number samples expected_count
  ∧ list_to_set (missing_samples get_sample_number samples expected_count)
    = reference_set expected_count ∖ present_set get_sample_number samples
  ∧ (expected_count = 5 →
     present_set get_sample_number samples = {[0]} ∪ {[1]} ∪ {[3]} →
     find_dropped_samples get_sample_number samples expected_count = 2
     ∧ list_to_set (missing_samples get_sample_number samples expected_count)
       =@{gset Z} {[2]} ∪ {[4]}).
Proof.
  intros Hint.
  assert (Hfind : find_dropped_samples get_sample_number samples expected_count
                  = dropped_spec get_sample_number samples expected_count).
  { unfold find_dropped_samples, dropped_spec.
    rewrite <- length_missing_samples. apply to_int_id.
    pose proof (length_missing_samples_le samples expected_count) as Hle.
    unfold in_int, INT_MIN, INT_MAX in *. lia. }
  split; [exact Hfind|]. split; [apply missing_samples_set|].
  intros -> Hpresent.
  assert (Hdiff : reference_set 5 ∖ present_set get_sample_number samples
                  =@{gset Z} {[2]} ∪ {[4]}).
  { rewrite Hpresent. apply set_eq. intros k.
    rewrite elem_of_difference, elem_of_reference_set.
    rewrite !elem_of_union, !elem_of_singleton. lia. }
  split.
  - rewrite Hfind. unfold dropped_spec. rewrite Hdiff.
    rewrite size_union by (apply disjoint_singleton_l; rewrite elem_of_singleton; lia).
    by rewrite !size_singleton.
  - by rewrite missing_samples_set.
Qed.

(** C8: the result of [find_dropped_samples] does not depend on the order of
    the samples; a sample whose sequence number already occurs among the
    others changes nothing (a duplicate is counted once as present and never
    adds to the dropped count); and when the sequence numbers are exactly
    {0, ..., expected_count-1}, in any order, the result is 0. *)
Theorem find_dropped_samples_order_duplicates (samples samples' : list Z)
    (duplicate : Z) (expected_count : Z) :
  (samples ≡ₚ samples' →
   find_dropped_samples get_sample_number samples expected_count
   = find_dropped_samples get_sample_number samples' expected_count)
  ∧ (get_sample_number duplicate ∈ present_set get_sample_number samples →
     find_dropped_samples get_sample_number (duplicate :: samples) expected_count
     = find_dropped_samples get_sample_number samples expected_count)
  ∧ (present_set get_sample_number samples = reference_set expected_count →
     find_dropped_samples get_sample_number samples expected_count = 0).
Proof.
  rewrite !find_dropped_samples_by_sets. repeat split.
  - intros Hp. by rewrite (present_set_Permutation _ _ Hp).
  - intros Hdup. by rewrite present_set_duplicate.
  - intros ->. by rewrite difference_diag_L, size_empty.
Qed.

(** C10: for every list of samples and every [number_of_samples <= 0] the
    index loop never runs, the reference set is empty, and
    [find_dropped_samples] returns 0. *)
Theorem find_dropped_samples_nonpositive (samples : list Z) (number_of_samples : Z) :
  number_of_samples ≤ 0 →
  correct_sequence number_of_samples = ∅
  ∧ missing_samples get_sample_number samples number_of_samples = []
  ∧ find_dropped_samples get_sample_number samples number_of_samples = 0.
Proof.
  intros Hn.
  assert (Hempty : correct_sequence number_of_samples = ∅).
  { unfold correct_sequence. by rewrite seqZ_nil. }
  assert (Hmissing : missing_samples get_sample_number samples number_of_samples = []).
  { unfold missing_samples. rewrite Hempty, elements_empty. done. }
  repeat split; [done..|].
  unfold find_dropped_samples. by rewrite Hmissing.
Qed.

End GapDetectorFacts.

Lemma find_dropped_samples_set_difference_witness :
  in_int 5
  ∧ find_dropped_samples (λ sample, sample) [0; 1; 3] 5 = 2
  ∧ list_to_set (missing_samples (λ sample, sample) [0; 1; 3] 5) =@{gset Z} {[2]} ∪ {[4]}.
Proof.
  assert (Hint : in_int 5) by (unfold in_int, INT_MIN, INT_MAX; lia).
  split; [exact Hint|].
  destruct (find_dropped_samples_set_difference (λ sample, sample) [0; 1; 3] 5 Hint)
    as (_ & _ & Hex).
  apply Hex; [reflexivity|]. vm_compute. reflexivity.
Defined.

Lemma find_dropped_samples_order_duplicates_witness :
  find_dropped_samples (λ sample, sample) [0; 1; 2] 3
  = find_dropped_samples (λ sample, sample) [1; 0; 2] 3
  ∧ find_dropped_samples (λ sample, sample) (1 :: [0; 1; 2]) 3
    = find_dropped_samples (λ sample, sample) [0; 1; 2] 3
  ∧ find_dropped_samples (λ sample, sample) [1; 0; 2] 3 = 0.
Proof.
  destruct (find_dropped_samples_order_duplicates (λ sample, sample)
              [0; 1; 2] [1; 0; 2] 1 3) as (Hperm & Hdup & Hall).
  split; [apply Hperm, perm_swap|]. split.
  - apply Hdup. vm_compute. reflexivity.
  - rewrite <- (Hperm (perm_swap 1 0 [2])). apply Hall. vm_compute. reflexivity.
Defined.

Lemma find_dropped_samples_nonpositive_witness :
  find_dropped_samples (λ sample, sample) [0; 1; 3] (-2) = 0.
Proof.
  refine (proj2 (proj2 (find_dropped_samples_nonpositive (λ sample, sample)
                          [0; 1; 3] (-2) _))).
  lia.
Defined.

(** ** The monad *)

Section MonadFacts.

Context {object : Type}.

Lemma bind_Returned {A B} (m : M object A) (f : A → M object B) w a w' :
  m w = Returned a w' → (m ≫= f) w = f a w'.
Proof. intros H. unfold mbind, M_bind. by rewrite H. Qed.

Lemma bind_Thrown {A B} (m : M object A) (f : A → M object B) w e w' :
  m w = Thrown e w' → (m ≫= f) w = Thrown e w'.
Proof. intros H. unfold mbind, M_bind. by rewrite H. Qed.

Lemma bind_Returned_inv {A B} (m : M object A) (f : A → M object B) w b w'' :
  (m ≫= f) w = Returned b w'' →
  ∃ a w', m w = Returned a w' ∧ f a w' = Returned b w''.
Proof.
  unfold mbind, M_bind. destruct (m w) as [a w'| | |]; try discriminate.
  intros H. eauto.
Qed.

End MonadFacts.

(** ** Frame reader *)

Section FrameReaderFacts.

Context {object : Type}.

Implicit Types (w : world object) (bs raw : list byte).

Lemma vector_resize_prefix bs tail w :
  (length bs ≤ FRAME_SIZE)%nat →
  vector_resize (bs ++ tail) (Z.of_nat (length bs)) w = Returned bs w.
Proof.
  unfold FRAME_SIZE. intros Hlen. unfold vector_resize.
  rewrite Z.mod_small by lia.
  replace (vector_max_size <? Z.of_nat (length bs)) with false.
  2:{ symmetry. apply Z.ltb_ge. unfold vector_max_size. lia. }
  rewrite Nat2Z.id, take_app_length.
  replace (length bs - length (bs ++ tail))%nat with 0%nat.
  2:{ rewrite length_app. lia. }
  simpl. by rewrite app_nil_r.
Qed.

(** What one call of [read_data_from_serial_port] does, by the next event. *)
Lemma read_data_eof w :
  serial w = [] → read_data_from_serial_port w = Returned [] w.
Proof.
  intros H. unfold read_data_from_serial_port.
  erewrite bind_Returned; [|unfold sys_read; rewrite H; reflexivity].
  apply (vector_resize_prefix [] _ w). simpl. unfold FRAME_SIZE. lia.
Qed.

Lemma read_data_error w rest :
  serial w = ReadError :: rest →
  read_data_from_serial_port w
  = Thrown length_error (World rest (clock w) (ticks w) (stdout w)).
Proof.
  intros H. unfold read_data_from_serial_port.
  erewrite bind_Returned; [|unfold sys_read; rewrite H; reflexivity].
  reflexivity.
Qed.

Lemma read_data_bytes w bs rest :
  serial w = ReadBytes bs :: rest →
  read_data_from_serial_port w
  = Returned (take FRAME_SIZE bs)
      (World match drop FRAME_SIZE bs with
             | [] => rest
             | _ => ReadBytes (drop FRAME_SIZE bs) :: rest
             end (clock w) (ticks w) (stdout w)).
Proof.
  intros H. unfold read_data_from_serial_port.
  erewrite bind_Returned; [|unfold sys_read; rewrite H; reflexivity].
  rewrite length_replicate. apply vector_resize_prefix.
  rewrite length_take. lia.
Qed.

Lemma read_data_short w bs rest :
  serial w = ReadBytes bs :: rest → (length bs ≤ FRAME_SIZE)%nat →
  read_data_from_serial_port w
  = Returned bs (World rest (clock w) (ticks w) (stdout w)).
Proof.
  intros H Hlen. rewrite (read_data_bytes w bs rest H).
  rewrite take_ge, drop_ge by done. reflexivity.
Qed.

(** A call either throws or returns at most 38 bytes, which are the next
    pending bytes of the port: none is lost. *)
Lemma read_data_returned w chunk w' :
  read_data_from_serial_port w = Returned chunk w' →
  pending_bytes (serial w) = chunk ++ pending_bytes (serial w')
  ∧ (length chunk ≤ FRAME_SIZE)%nat.
Proof.
  destruct (serial w) as [|[bs|] rest] eqn:Hs.
  - rewrite (read_data_eof w Hs). intros [= <- <-]. rewrite Hs. simpl.
    split; [done|lia].
  - rewrite (read_data_bytes w bs rest Hs). intros [= <- <-]. simpl. split.
    + rewrite <- (take_drop FRAME_SIZE bs) at 1.
      destruct (drop FRAME_SIZE bs) eqn:Hd; simpl.
      * by rewrite app_nil_r.
      * by rewrite <- app_assoc.
    + rewrite length_take. lia.
  - rewrite (read_data_error w rest Hs). discriminate.
Qed.

(** The accumulation loop: what it returns extends what it was given by the
    bytes it took from the port. *)
Lemma read_until_enough_returned fuel : ∀ raw w raw' w',
  read_until_enough fuel raw w = Returned raw' w' →
  (length raw < 2 * FRAME_SIZE)%nat →
  (∃ more, raw' = raw ++ more
           ∧ pending_bytes (serial w) = more ++ pending_bytes (serial w'))
  ∧ (FRAME_SIZE ≤ length raw' < 2 * FRAME_SIZE)%nat.
Proof.
  induction fuel as [|fuel IH]; intros raw w raw' w'; simpl;
    destruct (Nat.ltb_spec (length raw) FRAME_SIZE) as [Hlt|Hge].
  - discriminate.
  - intros [= <- <-] Hbound. split; [|lia]. exists []. by rewrite app_nil_r.
  - intros Hrun _. apply bind_Returned_inv in Hrun as (more & w1 & Hread & Hrun).
    apply read_data_returned in Hread as [Hpend Hlen].
    apply IH in Hrun as [(more' & -> & Hpend') Hbound].
    2:{ rewrite length_app. lia. }
    split; [|done]. exists (more ++ more').
    by rewrite Hpend, Hpend', !app_assoc.
  - intros [= <- <-] Hbound. split; [|lia]. exists []. by rewrite app_nil_r.
Qed.

Lemma read_raw_data_returned fuel w raw w' :
  read_raw_data fuel w = Returned raw w' →
  pending_bytes (serial w) = raw ++ pending_bytes (serial w')
  ∧ (FRAME_SIZE ≤ length raw < 2 * FRAME_SIZE)%nat.
Proof.
  unfold read_raw_data. intros Hrun.
  apply bind_Returned_inv in Hrun as (first & w1 & Hread & Hrun).
  apply read_data_returned in Hread as [Hpend Hlen].
  destruct (Nat.ltb_spec (length first) FRAME_SIZE) as [Hlt|Hge].
  - apply read_until_enough_returned in Hrun as [(more & -> & Hpend') Hbound];
      [|lia].
    split; [|done]. by rewrite Hpend, Hpend', app_assoc.
  - injection Hrun as <- <-. split; [done|unfold FRAME_SIZE in *; lia].
Qed.

(** Reads whose lengths add up to what the frame still lacks are all taken
    up, whatever the chunking. *)
Lemma read_until_enough_chunks chunks : ∀ fuel raw w rest,
  serial w = (ReadBytes <$> chunks) ++ rest →
  (length raw + length (concat chunks) = FRAME_SIZE)%nat →
  (length chunks ≤ fuel)%nat →
  ∃ w', read_until_enough fuel raw w = Returned (raw ++ concat chunks) w'.
Proof.
  induction chunks as [|chunk chunks IH]; intros fuel raw w rest Hs Hsum Hfuel.
  - simpl in *. exists w. rewrite app_nil_r.
    destruct fuel; simpl; rewrite (proj2 (Nat.ltb_ge _ _)) by lia; done.
  - simpl in Hsum, Hfuel. rewrite length_app in Hsum.
    assert (Hs' : serial w = ReadBytes chunk :: ((ReadBytes <$> chunks) ++ rest))
      by exact Hs.
    destruct (Nat.ltb_spec (length raw) FRAME_SIZE) as [Hlt|Hge].
    + destruct fuel as [|fuel]; [lia|]. simpl.
      rewrite (proj2 (Nat.ltb_lt _ _)) by done.
      erewrite bind_Returned; [|apply (read_data_short w chunk _ Hs'); lia].
      destruct (IH fuel (raw ++ chunk)
                  (World ((ReadBytes <$> chunks) ++ rest) (clock w) (ticks w) (stdout w))
                  rest) as [w' Hw'].
      * done.
      * rewrite length_app. lia.
      * lia.
      * exists w'. cbv beta. rewrite Hw'. simpl. by rewrite <- app_assoc.
    + assert (Hnil : chunk ++ concat chunks = []).
      { apply nil_length_inv. rewrite length_app. lia. }
      exists w. simpl. rewrite Hnil, app_nil_r.
      destruct fuel; simpl; rewrite (proj2 (Nat.ltb_ge _ _)) by lia; done.
Qed.

(** C4, as the code has it: [read_response]'s accumulation appends the bytes
    of every read to the buffer and loses none of them (the bytes pending on
    the port before the call are the buffer followed by the bytes pending
    after it); it reads on while the buffer is shorter than 38 bytes, and as
    every read asks for 38 bytes again the buffer handed to the decoder has a
    length of at least 38 and below 76; and for any sequence of reads whose
    lengths add up to exactly 38, the buffer handed on is their
    concatenation, one frame of length exactly 38. *)
Theorem read_raw_data_accumulates (fuel : nat) (w : world object) :
  (∀ raw w', read_raw_data fuel w = Returned raw w' →
     pending_bytes (serial w) = raw ++ pending_bytes (serial w')
     ∧ (FRAME_SIZE ≤ length raw < 2 * FRAME_SIZE)%nat)
  ∧ (∀ chunks rest,
       serial w = (ReadBytes <$> chunks) ++ rest →
       length (concat chunks) = FRAME_SIZE →
       (length chunks ≤ S fuel)%nat →
       ∃ w', read_raw_data fuel w = Returned (concat chunks) w'
             ∧ length (concat chunks) = 38%nat).
Proof.
  split; [intros raw w'; apply read_raw_data_returned|].
  intros [|chunk chunks] rest Hs Hsum Hfuel; [discriminate|].
  simpl in Hsum, Hfuel. rewrite length_app in Hsum.
  assert (Hs' : serial w = ReadBytes chunk :: ((ReadBytes <$> chunks) ++ rest))
    by exact Hs.
  unfold read_raw_data.
  erewrite bind_Returned; [|apply (read_data_short w chunk _ Hs'); lia].
  destruct (Nat.ltb_spec (length chunk) FRAME_SIZE) as [Hlt|Hge].
  - destruct (read_until_enough_chunks chunks fuel chunk
                (World ((ReadBytes <$> chunks) ++ rest) (clock w) (ticks w) (stdout w))
                rest) as [w' Hw']; [done|lia|lia|].
    exists w'. split; [done|]. simpl. rewrite length_app. exact Hsum.
  - assert (Hnil : concat chunks = []) by (apply nil_length_inv; lia).
    eexists. simpl. rewrite Hnil, app_nil_r. split; [reflexivity|].
    unfold FRAME_SIZE in *. lia.
Qed.

End FrameReaderFacts.

Lemma read_raw_data_accumulates_witness :
  ∃ w', read_raw_data 2 (fresh_world [ReadBytes (replicate 10 x01);
                                      ReadBytes [];
                                      ReadBytes (replicate 28 x02)])
        = Returned (replicate 10 x01 ++ replicate 28 x02) w'
        ∧ pending_bytes [ReadBytes (replicate 10 x01); ReadBytes []; ReadBytes (replicate 28 x02)]
          = (replicate 10 x01 ++ replicate 28 x02) ++ pending_bytes (serial w').
Proof.
  pose (w := fresh_world [ReadBytes (replicate 10 x01); ReadBytes [];
                          ReadBytes (replicate 28 x02)]).
  destruct (read_raw_data_accumulates 2 w) as [Hkeep Hframe].
  destruct (Hframe [replicate 10 x01; []; replicate 28 x02] [])
    as (w' & Hrun & _); [reflexivity|reflexivity|simpl; lia|].
  exists w'. split; [exact Hrun|].
  exact (proj1 (Hkeep _ _ Hrun)).
Defined.

(** C4, counterexample to the claim as stated: after a first read of 20
    bytes the next read delivers 38 bytes, and the buffer handed to the
    decoder has 58 bytes, not 38. *)
Lemma read_raw_data_overshoots :
  read_raw_data 1 (fresh_world [ReadBytes (replicate 20 x01);
                                ReadBytes (replicate 38 x02)])
  = Returned (replicate 20 x01 ++ replicate 38 x02) (fresh_world [])
  ∧ length (replicate 20 x01 ++ replicate 38 x02) = 58%nat
  ∧ ¬ (∀ raw w', read_raw_data 1 (fresh_world [ReadBytes (replicate 20 x01);
                                               ReadBytes (replicate 38 x02)])
                  = Returned raw w' → length raw = FRAME_SIZE).
Proof.
  assert (Hrun : read_raw_data 1 (fresh_world [ReadBytes (replicate 20 x01);
                                               ReadBytes (replicate 38 x02)])
                 = Returned (replicate 20 x01 ++ replicate 38 x02) (fresh_world []))
    by reflexivity.
  split; [exact Hrun|]. split; [reflexivity|].
  intros Hall. specialize (Hall _ _ Hrun). discriminate Hall.
Qed.

(** ** Acquisition loop *)

Section AcquisitionFacts.

Context {object : Type} (unpack : list byte → option (list object)).

Implicit Types (w : world object) (st : loop_state object).

Lemma read_response_frame fuel w frame rest :
  serial w = ReadBytes frame :: rest → length frame = FRAME_SIZE →
  read_response unpack fuel w
  = match unpack frame with
    | Some unpacked_data =>
        Returned unpacked_data (World rest (clock w) (ticks w) (stdout w))
    | None => Thrown parse_error (World rest (clock w) (ticks w) (stdout w))
    end.
Proof.
  intros Hs Hlen. unfold read_response, read_raw_data.
  erewrite bind_Returned.
  2:{ erewrite bind_Returned; [|apply (read_data_short w frame rest Hs); lia].
      cbv beta. rewrite Hlen, Nat.ltb_irrefl. reflexivity. }
  by destruct (unpack frame).
Qed.

Lemma read_response_error fuel w rest :
  serial w = ReadError :: rest →
  read_response unpack fuel w
  = Thrown length_error (World rest (clock w) (ticks w) (stdout w)).
Proof.
  intros Hs. unfold read_response, read_raw_data.
  erewrite bind_Thrown; [reflexivity|].
  erewrite bind_Thrown; [reflexivity|]. by apply read_data_error.
Qed.

(** One turn of the loop, by the outcome of its [read_response]. *)
Lemma loop_body_run fuel display_output st w :
  loop_body unpack fuel display_output st w
  = match read_response unpack fuel w with
    | Returned result w1 =>
        Returned
          (LoopState (samples st ++ [result]) (to_int (sample_counter st + 1))
             (double_of_int (clock w1 (ticks w1))))
          (World (serial w1) (clock w1) (S (ticks w1))
             (if display_output then stdout w1 ++ [result] else stdout w1))
    | Thrown e w1 => Thrown e w1
    | OutOfFuel => OutOfFuel
    | Undefined => Undefined
    end.
Proof.
  unfold loop_body, mbind, M_bind.
  destruct (read_response unpack fuel w) as [result w1| | |]; [|done..].
  by destruct display_output.
Qed.

Lemma loop_condition_spec max_samples max_sample_time st :
  loop_condition max_samples max_sample_time st = true
  ↔ sample_counter st < max_samples ∧ sample_counter st < max_sample_time.
Proof. unfold loop_condition. rewrite andb_true_iff, !Z.ltb_lt. done. Qed.

(** The state at the exit of the loop: the counter has gone up by one for
    every turn, one element was appended at every turn, and the counter
    stands at the smaller cap unless it started above it. *)
Lemma acquire_loop_exit read_fuel max_samples max_sample_time display_output fuel :
  ∀ st w st' w',
  in_int max_samples → 0 ≤ sample_counter st →
  acquire_loop unpack read_fuel fuel max_samples max_sample_time display_output st w
  = Returned st' w' →
  sample_counter st'
  = Z.max (sample_counter st) (Z.min max_samples max_sample_time)
  ∧ ∃ results, samples st' = samples st ++ results
               ∧ Z.of_nat (length results) = sample_counter st' - sample_counter st.
Proof.
  induction fuel as [|fuel IH]; intros st w st' w' Hint Hpos; simpl;
    destruct (loop_condition max_samples max_sample_time st) eqn:Hcond.
  - discriminate.
  - intros [= <- <-]. apply not_true_iff_false in Hcond.
    rewrite loop_condition_spec in Hcond. split; [lia|].
    exists []. rewrite app_nil_r. simpl. split; [done|lia].
  - apply loop_condition_spec in Hcond as [Hlt1 Hlt2].
    intros Hrun. apply bind_Returned_inv in Hrun as (st1 & w1 & Hbody & Hrun).
    rewrite loop_body_run in Hbody.
    destruct (read_response unpack read_fuel w) as [result w0| | |]; try discriminate.
    injection Hbody as <- <-.
    apply IH in Hrun as [Hc (results & Hs & Hn)]; [|done|].
    2:{ simpl. rewrite (to_int_succ _ max_samples) by done. lia. }
    simpl in Hc, Hs, Hn. rewrite (to_int_succ _ max_samples) in Hc, Hn by done.
    split; [lia|]. exists (result :: results).
    rewrite Hs, <- app_assoc. simpl. split; [done|lia].
  - intros [= <- <-]. apply not_true_iff_false in Hcond.
    rewrite loop_condition_spec in Hcond. split; [lia|].
    exists []. rewrite app_nil_r. simpl. split; [done|lia].
Qed.

(** [acquire_data_cpp] by its parts: the conversion of line 80, the two
    clock readings, the loop, the result tuple. *)
Lemma acquire_data_cpp_run self fuel max_samples duration speed display_output w
    max_sample_time :
  let p := resolve_parameters self max_samples duration speed in
  p_max_sample_time p = Some max_sample_time →
  acquire_data_cpp unpack self fuel max_samples duration speed display_output w
  = match acquire_loop unpack fuel fuel (p_max_samples p) max_sample_time
            display_output (LoopState [] 0 (double_of_int (clock w (ticks w))))
            (World (serial w) (clock w) (S (S (ticks w))) (stdout w)) with
    | Returned st w' =>
        Returned (samples st, sample_counter st,
                  elapsed_expression (end_time st)
                    (double_of_int (clock w (S (ticks w))))) w'
    | Thrown e w' => Thrown e w'
    | OutOfFuel => OutOfFuel
    | Undefined => Undefined
    end.
Proof. intros p Hmst. unfold acquire_data_cpp. fold p. rewrite Hmst. reflexivity. Qed.

Lemma acquire_data_cpp_undefined self fuel max_samples duration speed display_output w :
  p_max_sample_time (resolve_parameters self max_samples duration speed) = None →
  acquire_data_cpp unpack self fuel max_samples duration speed display_output w
  = Undefined.
Proof. intros Hmst. unfold acquire_data_cpp. rewrite Hmst. reflexivity. Qed.

(** A call that returns has passed line 80 with a defined conversion. *)
Lemma acquire_data_cpp_Returned_defined self fuel max_samples duration speed
    display_output w result w' :
  acquire_data_cpp unpack self fuel max_samples duration speed display_output w
  = Returned result w' →
  ∃ max_sample_time,
    p_max_sample_time (resolve_parameters self max_samples duration speed)
    = Some max_sample_time.
Proof.
  destruct (p_max_sample_time (resolve_parameters self max_samples duration speed))
    as [max_sample_time|] eqn:Hmst; [eauto|].
  by rewrite acquire_data_cpp_undefined.
Qed.

Lemma resolve_parameters_in_int self max_samples duration speed :
  in_int max_samples → in_int (max_samples_ self) →
  in_int (p_max_samples (resolve_parameters self max_samples duration speed)).
Proof. intros H1 H2. simpl. by destruct (max_samples =? 0). Qed.

Lemma acquire_data_cpp_returned self fuel max_samples duration speed display_output
    w smp count elapsed w' :
  in_int max_samples → in_int (max_samples_ self) →
  acquire_data_cpp unpack self fuel max_samples duration speed display_output w
  = Returned (smp, count, elapsed) w' →
  let p := resolve_parameters self max_samples duration speed in
  ∃ max_sample_time,
    p_max_sample_time p = Some max_sample_time
    ∧ count = Z.max 0 (Z.min (p_max_samples p) max_sample_time)
    ∧ count = Z.of_nat (length smp).
Proof.
  intros H1 H2 Hrun p.
  destruct (acquire_data_cpp_Returned_defined _ _ _ _ _ _ _ _ _ Hrun)
    as [max_sample_time Hmst].
  exists max_sample_time. split; [exact Hmst|]. revert Hrun.
  rewrite (acquire_data_cpp_run _ _ _ _ _ _ _ _ Hmst).
  destruct (acquire_loop _ _ _ _ _ _ _ _) as [st w1| | |] eqn:Hloop; try discriminate.
  intros [= <- <- <- <-].
  apply acquire_loop_exit in Hloop as [Hc (results & Hs & Hn)];
    [|by apply resolve_parameters_in_int|simpl; lia].
  simpl in Hc, Hs, Hn. split; [exact Hc|]. rewrite Hs. lia.
Qed.

(** No turn of the loop when a cap is zero or negative. *)
Lemma acquire_data_cpp_no_turn self fuel max_samples duration speed display_output w
    max_sample_time :
  let p := resolve_parameters self max_samples duration speed in
  p_max_sample_time p = Some max_sample_time →
  Z.min (p_max_samples p) max_sample_time ≤ 0 →
  acquire_data_cpp unpack self fuel max_samples duration speed display_output w
  = Returned ([], 0, elapsed_expression (double_of_int (clock w (ticks w)))
                       (double_of_int (clock w (S (ticks w)))))
      (World (serial w) (clock w) (S (S (ticks w))) (stdout w)).
Proof.
  intros p Hmst Hmin. rewrite (acquire_data_cpp_run _ _ _ _ _ _ _ _ Hmst). fold p.
  assert (Hcond : ∀ t, loop_condition (p_max_samples p) max_sample_time
                         (LoopState (object:=object) [] 0 t) = false).
  { intros t. apply not_true_iff_false. rewrite loop_condition_spec.
    cbn [sample_counter]. lia. }
  destruct fuel; simpl; rewrite Hcond; reflexivity.
Qed.

(** A read error after some complete frames: the loop is left by an
    exception. *)
Lemma acquire_loop_read_error read_fuel max_samples max_sample_time display_output frames :
  ∀ fuel st w rest,
  serial w = (ReadBytes <$> frames) ++ ReadError :: rest →
  Forall (λ frame, length frame = FRAME_SIZE) frames →
  in_int max_samples → 0 ≤ sample_counter st →
  sample_counter st + Z.of_nat (length frames) < Z.min max_samples max_sample_time →
  (length frames < fuel)%nat →
  ∃ e w',
    acquire_loop unpack read_fuel fuel max_samples max_sample_time display_output st w
    = Thrown e w'
    ∧ (Forall (λ frame, is_Some (unpack frame)) frames →
       e = length_error ∧ serial w' = rest).
Proof.
  induction frames as [|frame frames IH];
    intros fuel st w rest Hs Hlen Hint Hpos Hcap Hfuel;
    (destruct fuel as [|fuel]; [simpl in Hfuel; lia|]);
    (assert (Hcond : loop_condition max_samples max_sample_time st = true)
      by (apply loop_condition_spec; lia));
    simpl; rewrite Hcond.
  - erewrite bind_Thrown.
    2:{ rewrite loop_body_run, (read_response_error _ w rest Hs). reflexivity. }
    eauto.
  - assert (Hs' : serial w = ReadBytes frame :: ((ReadBytes <$> frames) ++ ReadError :: rest))
      by exact Hs.
    apply Forall_cons in Hlen as [Hframe Hlen].
    rewrite length_cons, Nat2Z.inj_succ in Hcap. simpl in Hfuel.
    apply loop_condition_spec in Hcond as [Hlt _].
    pose proof (read_response_frame read_fuel w frame _ Hs' Hframe) as Hread.
    destruct (unpack frame) as [result|] eqn:Hunpack.
    + erewrite bind_Returned; [|rewrite loop_body_run, Hread; reflexivity].
      edestruct (IH fuel) as (e & w' & Hrun & He); last first.
      * exists e, w'. split; [exact Hrun|].
        intros Hall. apply Forall_cons in Hall as [_ Hall]. by apply He.
      * lia.
      * simpl. rewrite (to_int_succ _ max_samples) by done. lia.
      * simpl. rewrite (to_int_succ _ max_samples) by done. lia.
      * done.
      * done.
      * reflexivity.
    + erewrite bind_Thrown; [|rewrite loop_body_run, Hread; reflexivity].
      do 2 eexists. split; [reflexivity|].
      intros Hall. apply Forall_cons in Hall as [[? Hsome] _]. congruence.
Qed.

(** With complete, decodable frames on the port the loop takes exactly as
    many of them as the caps allow and leaves the others unread. *)
Lemma acquire_loop_complete_frames read_fuel max_samples max_sample_time display_output frames :
  ∀ fuel st w rest,
  serial w = (ReadBytes <$> frames) ++ rest →
  Forall (λ frame, length frame = FRAME_SIZE ∧ is_Some (unpack frame)) frames →
  in_int max_samples → 0 ≤ sample_counter st →
  sample_counter st + Z.of_nat (length frames)
  = Z.max (sample_counter st) (Z.min max_samples max_sample_time) →
  (length frames ≤ fuel)%nat →
  ∃ st' w',
    acquire_loop unpack read_fuel fuel max_samples max_sample_time display_output st w
    = Returned st' w'
    ∧ sample_counter st' = sample_counter st + Z.of_nat (length frames)
    ∧ length (samples st') = (length (samples st) + length frames)%nat
    ∧ serial w' = rest.
Proof.
  induction frames as [|frame frames IH];
    intros fuel st w rest Hs Hall Hint Hpos Hcap Hfuel.
  - assert (Hcond : loop_condition max_samples max_sample_time st = false).
    { apply not_true_iff_false. rewrite loop_condition_spec. simpl in Hcap. lia. }
    exists st, w. simpl. rewrite Z.add_0_r, Nat.add_0_r.
    destruct fuel; simpl; rewrite Hcond; done.
  - rewrite length_cons, Nat2Z.inj_succ in Hcap.
    assert (Hcond : loop_condition max_samples max_sample_time st = true)
      by (apply loop_condition_spec; lia).
    destruct fuel as [|fuel]; [simpl in Hfuel; lia|]. simpl in Hfuel.
    simpl. rewrite Hcond.
    assert (Hs' : serial w = ReadBytes frame :: ((ReadBytes <$> frames) ++ rest))
      by exact Hs.
    apply Forall_cons in Hall as [[Hframe [result Hunpack]] Hall].
    pose proof (read_response_frame read_fuel w frame _ Hs' Hframe) as Hread.
    rewrite Hunpack in Hread.
    erewrite bind_Returned; [|rewrite loop_body_run, Hread; reflexivity].
    apply loop_condition_spec in Hcond as [Hlt _].
    edestruct (IH fuel) as (st' & w' & Hrun & Hc & Hn & Hrest); last first.
    + exists st', w'. split; [exact Hrun|].
      simpl in Hc, Hn. rewrite (to_int_succ _ max_samples) in Hc by done.
      rewrite length_app in Hn. simpl in Hn.
      rewrite Nat2Z.inj_succ. repeat split; [lia|lia|exact Hrest].
    + lia.
    + simpl. rewrite (to_int_succ _ max_samples) by done. lia.
    + simpl. rewrite (to_int_succ _ max_samples) by done. lia.
    + done.
    + done.
    + reflexivity.
Qed.

(** C2, as the code has it: whenever [acquire_data_cpp] leaves its loop and
    returns, the final [sample_counter] equals
    max(0, min(max_samples, max_sample_time)), where [max_sample_time] is
    the [float] product [duration * speed] after default resolution,
    converted to [int] (a call whose conversion is undefined does not
    return).  So the counter never exceeds the smaller cap when that cap is
    not negative, and it is 0 when a cap is zero or negative.  The loop body
    runs only while the counter is strictly below both caps; with complete
    frames on the port the call returns after exactly that many read cycles
    and leaves the following bytes unread. *)
Theorem acquire_data_cpp_counter_at_exit (self : HackEEG) (fuel : nat)
    (max_samples : Z) (duration : float) (speed : Z) (display_output : bool)
    (w : world object) :
  in_int max_samples → in_int (max_samples_ self) →
  let p := resolve_parameters self max_samples duration speed in
  p_max_sample_time p
  = float_to_int (float_mul (p_duration p) (float_of_int (p_speed p)))
  ∧ (∀ smp count elapsed w',
       acquire_data_cpp unpack self fuel max_samples duration speed display_output w
       = Returned (smp, count, elapsed) w' →
       ∃ max_sample_time,
         p_max_sample_time p = Some max_sample_time
         ∧ count = Z.max 0 (Z.min (p_max_samples p) max_sample_time)
         ∧ (0 ≤ Z.min (p_max_samples p) max_sample_time →
            count ≤ Z.min (p_max_samples p) max_sample_time))
  ∧ (∀ max_sample_time (st : loop_state object),
       loop_condition (p_max_samples p) max_sample_time st = true
       ↔ sample_counter st < p_max_samples p
         ∧ sample_counter st < max_sample_time)
  ∧ (∀ max_sample_time frames rest,
       p_max_sample_time p = Some max_sample_time →
       serial w = (ReadBytes <$> frames) ++ rest →
       Forall (λ frame, length frame = FRAME_SIZE ∧ is_Some (unpack frame)) frames →
       Z.of_nat (length frames)
       = Z.max 0 (Z.min (p_max_samples p) max_sample_time) →
       (length frames ≤ fuel)%nat →
       ∃ smp elapsed w',
         acquire_data_cpp unpack self fuel max_samples duration speed display_output w
         = Returned (smp, Z.max 0 (Z.min (p_max_samples p) max_sample_time), elapsed) w'
         ∧ length smp = length frames ∧ serial w' = rest).
Proof.
  intros H1 H2 p. split; [reflexivity|]. split; [|split].
  - intros smp count elapsed w' Hrun.
    destruct (acquire_data_cpp_returned _ _ _ _ _ _ _ _ _ _ _ H1 H2 Hrun)
      as (max_sample_time & Hmst & Hc & _).
    exists max_sample_time. fold p in Hmst, Hc. split; [exact Hmst|].
    split; [exact Hc|lia].
  - intros max_sample_time st. apply loop_condition_spec.
  - intros max_sample_time frames rest Hmst Hs Hall Hlen Hfuel.
    rewrite (acquire_data_cpp_run _ _ _ _ _ _ _ _ Hmst). fold p.
    edestruct (acquire_loop_complete_frames fuel (p_max_samples p)
                 max_sample_time display_output frames fuel)
      as (st' & w' & Hrun & Hc & Hn & Hrest); last first.
    + rewrite Hrun. do 3 eexists. split; [|split; [exact Hn|exact Hrest]].
      cbn [sample_counter] in Hc. rewrite Hc, Hlen. reflexivity.
    + exact Hfuel.
    + cbn [sample_counter]. lia.
    + cbn [sample_counter]. lia.
    + by apply resolve_parameters_in_int.
    + exact Hall.
    + exact Hs.
Qed.

(** C5, as the code has it: [sample_counter] goes up by exactly one per turn
    of the loop, that is per call of [read_response], whatever the number of
    objects that call decoded; the whole vector of decoded objects is
    appended to [samples] as one element.  So on return the counter is the
    number of elements of [samples], the number of read cycles. *)
Theorem loop_body_counts_read_cycles (read_fuel : nat) (display_output : bool)
    (max_samples max_sample_time : Z) (st : loop_state object) (w : world object)
    (result : list object) (w1 : world object) :
  in_int max_samples → 0 ≤ sample_counter st →
  loop_condition max_samples max_sample_time st = true →
  read_response unpack read_fuel w = Returned result w1 →
  (∃ st' w', loop_body unpack read_fuel display_output st w = Returned st' w'
             ∧ sample_counter st' = sample_counter st + 1
             ∧ samples st' = samples st ++ [result]
             ∧ length (samples st') = S (length (samples st)))
  ∧ (∀ self fuel duration speed w0 smp count elapsed w',
       in_int (max_samples_ self) →
       acquire_data_cpp unpack self fuel max_samples duration speed display_output w0
       = Returned (smp, count, elapsed) w' →
       count = Z.of_nat (length smp)).
Proof.
  intros Hint Hpos Hcond Hread. split.
  - rewrite loop_body_run, Hread. do 2 eexists. split; [reflexivity|]. simpl.
    apply loop_condition_spec in Hcond as [Hlt _].
    rewrite (to_int_succ _ max_samples) by done.
    rewrite length_app. simpl. repeat split. lia.
  - intros self fuel duration speed w0 smp count elapsed w' Hself Hrun.
    by destruct (acquire_data_cpp_returned _ _ _ _ _ _ _ _ _ _ _ Hint Hself Hrun)
      as (max_sample_time' & _ & _ & Hlen).
Qed.

(** A read error after complete frames and before a cap is reached:
    [resize(-1)] throws, and the exception leaves [acquire_data_cpp]; it is
    [std::length_error] when the frames read before all decoded. *)
Lemma acquire_data_cpp_read_error (self : HackEEG) (fuel : nat)
    (max_samples : Z) (duration : float) (speed : Z) (display_output : bool)
    (w : world object) (frames : list (list byte)) (rest : list read_event)
    (max_sample_time : Z) :
  let p := resolve_parameters self max_samples duration speed in
  in_int max_samples → in_int (max_samples_ self) →
  p_max_sample_time p = Some max_sample_time →
  serial w = (ReadBytes <$> frames) ++ ReadError :: rest →
  Forall (λ frame, length frame = FRAME_SIZE) frames →
  Z.of_nat (length frames) < Z.min (p_max_samples p) max_sample_time →
  (length frames < fuel)%nat →
  ∃ e w',
    acquire_data_cpp unpack self fuel max_samples duration speed display_output w
    = Thrown e w'
    ∧ (Forall (λ frame, is_Some (unpack frame)) frames →
       e = length_error ∧ serial w' = rest).
Proof.
  intros p H1 H2 Hmst Hs Hlen Hcap Hfuel.
  rewrite (acquire_data_cpp_run _ _ _ _ _ _ _ _ Hmst). fold p.
  edestruct (acquire_loop_read_error fuel (p_max_samples p) max_sample_time
               display_output frames fuel) as (e & w' & Hrun & He); last first.
  - rewrite Hrun. exists e, w'. split; [reflexivity|exact He].
  - exact Hfuel.
  - simpl. exact Hcap.
  - simpl. lia.
  - by apply resolve_parameters_in_int.
  - exact Hlen.
  - exact Hs.
Qed.


End AcquisitionFacts.

(** ** Concrete runs *)

Lemma in_int_small z : -1000 ≤ z ≤ 1000 → in_int z.
Proof. unfold in_int, INT_MIN, INT_MAX. lia. Qed.

Lemma acquire_data_cpp_counter_at_exit_witness :
  p_max_sample_time (resolve_parameters driver_5_1_250 100 float_0_7 10) = Some 7
  ∧ ∃ smp elapsed w',
      acquire_data_cpp fixint_unpack driver_5_1_250 7 100 float_0_7 10 false
        (fresh_world ((ReadBytes <$> replicate 7 frame_of_ones)
                      ++ [ReadBytes frame_of_twos]))
      = Returned (smp, Z.max 0 (Z.min 100 7), elapsed) w'
      ∧ length smp = 7%nat ∧ serial w' = [ReadBytes frame_of_twos].
Proof.
  split; [vm_compute; reflexivity|].
  destruct (acquire_data_cpp_counter_at_exit fixint_unpack driver_5_1_250 7 100
              float_0_7 10 false
              (fresh_world ((ReadBytes <$> replicate 7 frame_of_ones)
                            ++ [ReadBytes frame_of_twos])))
    as (_ & _ & _ & Hframes); [apply in_int_small; simpl; lia..|].
  apply (Hframes 7 (replicate 7 frame_of_ones) [ReadBytes frame_of_twos]).
  - vm_compute. reflexivity.
  - reflexivity.
  - repeat constructor; by eexists.
  - vm_compute. reflexivity.
  - simpl. lia.
Defined.

(** C2, counterexample to the claim as stated: with [max_samples = -1] the
    loop is not entered, the final counter is 0, and 0 is above
    min(max_samples, max_sample_time) = min(-1, 250) = -1. *)
Lemma acquire_data_cpp_counter_above_negative_cap :
  let p := resolve_parameters driver_5_1_250 (-1) (float_of_int 0) 0 in
  p_max_samples p = -1 ∧ p_max_sample_time p = Some 250
  ∧ ∃ elapsed w',
      acquire_data_cpp fixint_unpack driver_5_1_250 1 (-1) (float_of_int 0) 0 false
        (fresh_world [ReadBytes frame_of_ones])
      = Returned ([], 0, elapsed) w'
      ∧ ¬ (0 ≤ Z.min (p_max_samples p) 250).
Proof.
  cbv zeta. split; [reflexivity|]. split; [vm_compute; reflexivity|].
  do 2 eexists. split; [vm_compute; reflexivity|]. simpl. lia.
Qed.

Lemma loop_body_counts_read_cycles_witness :
  ∃ st' w',
    loop_body fixint_unpack 0 false (LoopState [] 0 (double_of_int 0))
      (fresh_world [ReadBytes frame_of_ones])
    = Returned st' w'
    ∧ sample_counter st' = 0 + 1
    ∧ samples st' = [] ++ [replicate 38 1].
Proof.
  destruct (loop_body_counts_read_cycles fixint_unpack 0 false 5 250
              (LoopState [] 0 (double_of_int 0)) (fresh_world [ReadBytes frame_of_ones])
              (replicate 38 1) (fresh_world []))
    as [(st' & w' & Hrun & Hc & Hs & _) _].
  - apply in_int_small. lia.
  - simpl. lia.
  - reflexivity.
  - reflexivity.
  - exists st', w'. auto.
Defined.

(** C5, counterexample to the claim as stated: one read cycle whose buffer
    holds 38 complete objects raises the counter by 1, not by 38, and adds
    one element to [samples], not 38. *)
Lemma loop_body_one_count_for_many_objects :
  read_response fixint_unpack 0 (fresh_world [ReadBytes frame_of_ones])
  = Returned (replicate 38 1) (fresh_world [])
  ∧ length (replicate 38 1) = 38%nat
  ∧ ∃ st' w',
      loop_body fixint_unpack 0 false (LoopState [] 0 (double_of_int 0))
        (fresh_world [ReadBytes frame_of_ones])
      = Returned st' w'
      ∧ sample_counter st' = 1
      ∧ sample_counter st' ≠ 0 + 38
      ∧ length (samples st') = 1%nat.
Proof.
  split; [reflexivity|]. split; [reflexivity|].
  do 2 eexists. split; [vm_compute; reflexivity|]. simpl. repeat split. lia.
Qed.

(** C7, the code at two failing inputs.  (a) One frame is decoded, then
    [read] returns -1.  (b) One frame is decoded, 20 bytes of the next one
    are accumulated, then [read] returns -1.  In both runs [resize(-1)]
    throws [std::length_error], which nothing catches: the call returns no
    tuple, so the sample decoded before the failure and the counter do not
    reach the caller, and no error value is reported with them. *)
Theorem acquire_data_cpp_read_error_returns_nothing :
  (acquire_data_cpp fixint_unpack driver_5_1_250 2 5 (float_of_int 0) 0 false
     (fresh_world [ReadBytes frame_of_ones; ReadError; ReadBytes frame_of_ones])
   = Thrown length_error (World [ReadBytes frame_of_ones] clock_2ms 3 [])
   ∧ ¬ ∃ smp count elapsed w',
         acquire_data_cpp fixint_unpack driver_5_1_250 2 5 (float_of_int 0) 0 false
           (fresh_world [ReadBytes frame_of_ones; ReadError; ReadBytes frame_of_ones])
         = Returned (smp, count, elapsed) w')
  ∧ (acquire_data_cpp fixint_unpack driver_5_1_250 2 5 (float_of_int 0) 0 false
       (fresh_world [ReadBytes frame_of_ones; ReadBytes (replicate 20 x01); ReadError])
     = Thrown length_error (World [] clock_2ms 3 [])
     ∧ ¬ ∃ smp count elapsed w',
           acquire_data_cpp fixint_unpack driver_5_1_250 2 5 (float_of_int 0) 0 false
             (fresh_world [ReadBytes frame_of_ones; ReadBytes (replicate 20 x01);
                           ReadError])
           = Returned (smp, count, elapsed) w').
Proof.
  assert (Ha : acquire_data_cpp fixint_unpack driver_5_1_250 2 5 (float_of_int 0) 0 false
            (fresh_world [ReadBytes frame_of_ones; ReadError; ReadBytes frame_of_ones])
          = Thrown length_error (World [ReadBytes frame_of_ones] clock_2ms 3 []))
    by (vm_compute; reflexivity).
  assert (Hb : acquire_data_cpp fixint_unpack driver_5_1_250 2 5 (float_of_int 0) 0 false
            (fresh_world [ReadBytes frame_of_ones; ReadBytes (replicate 20 x01);
                          ReadError])
          = Thrown length_error (World [] clock_2ms 3 []))
    by (vm_compute; reflexivity).
  split; (split; [assumption|]); intros (smp & count & elapsed & w' & Hret).
  - rewrite Ha in Hret. discriminate Hret.
  - rewrite Hb in Hret. discriminate Hret.
Qed.


(** C1, the code at two inputs.  Run (a): one frame, the clock reads
    1000000 us, 1000000 us and 1002000 us; the difference [end_time -
    start_time] is 2000 us and the returned third component is 1001000.
    Run (b): no turn of the loop, the clock reads 1000000 us twice; the
    difference is 0 and the returned third component is 999000.  The value
    returned is [end_time - start_time / 1000.0], in which only [start_time]
    is divided: no factor scales both differences to the values returned.
    All the numbers of the two runs are exact in [double] and in [float]. *)
Theorem acquire_data_cpp_elapsed_mixed_units :
  ∃ elapsed_a elapsed_b w_a w_b,
    acquire_data_cpp fixint_unpack driver_5_1_250 1 1 (float_of_int 0) 0 false
      (fresh_world [ReadBytes frame_of_ones])
    = Returned ([replicate 38 1], 1, elapsed_a) w_a
    ∧ acquire_data_cpp fixint_unpack driver_zero 1 0 (float_of_int 0) 0 false
        (fresh_world [ReadBytes frame_of_ones])
      = Returned ([], 0, elapsed_b) w_b
    ∧ (float_value elapsed_a == 1001000)%Q ∧ (float_value elapsed_b == 999000)%Q
    ∧ clock_2ms 2 - clock_2ms 1 = 2000 ∧ clock_2ms 0 - clock_2ms 1 = 0
    ∧ ¬ ∃ k : Q,
          (float_value elapsed_a == k * inject_Z (clock_2ms 2 - clock_2ms 1))%Q
          ∧ (float_value elapsed_b == k * inject_Z (clock_2ms 0 - clock_2ms 1))%Q.
Proof.
  do 4 eexists. split; [vm_compute; reflexivity|]. split; [vm_compute; reflexivity|].
  split; [vm_compute; reflexivity|]. split; [vm_compute; reflexivity|].
  split; [reflexivity|]. split; [reflexivity|].
  intros (k & _ & Hb).
  change (inject_Z (clock_2ms 0 - clock_2ms 1)) with 0%Q in Hb.
  rewrite Qmult_0_r in Hb. vm_compute in Hb. discriminate Hb.
Qed.

(** C6, the code at the failing input: the three arguments and the three
    defaults are 0, so [max_samples = 0] and [max_sample_time = 0] after
    resolution, and the clock reads 1000000 us at both readings.  The loop
    body does not run, the samples are empty and the count is 0; but the
    third component returned is 1000000 - 1000000 / 1000 = 999000, not 0. *)
Theorem acquire_data_cpp_zero_caps_elapsed :
  let p := resolve_parameters driver_zero 0 (float_of_int 0) 0 in
  p_max_samples p = 0 ∧ p_max_sample_time p = Some 0
  ∧ ∃ elapsed,
      acquire_data_cpp fixint_unpack driver_zero 0 0 (float_of_int 0) 0 false
        (fresh_world [ReadBytes frame_of_ones])
      = Returned ([], 0, elapsed)
          (World [ReadBytes frame_of_ones] clock_2ms 2 [])
      ∧ (float_value elapsed == 999000)%Q ∧ ¬ (float_value elapsed == 0)%Q.
Proof.
  cbv zeta. split; [reflexivity|]. split; [vm_compute; reflexivity|].
  eexists. split.
  - apply (acquire_data_cpp_no_turn fixint_unpack driver_zero 0 0 (float_of_int 0) 0
             false (fresh_world [ReadBytes frame_of_ones]) 0); [vm_compute; reflexivity|].
    simpl. lia.
  - split; [vm_compute; reflexivity|]. intros H. vm_compute in H. discriminate H.
Qed.

(** ** Gap detector: further properties *)


(** Two counting facts on finite sets of integers. *)
Lemma size_difference_more (x : Z) (R P : gset Z) :
  x ∈ R → x ∉ P → size (R ∖ P) = S (size (R ∖ ({[x]} ∪ P))).
Proof.
  intros Hx Hnew.
  assert (Hsplit : R ∖ P = {[x]} ∪ R ∖ ({[x]} ∪ P)).
  { apply set_eq. intros k. destruct (decide (k = x)); set_solver. }
  rewrite Hsplit at 1. rewrite size_union by set_solver.
  by rewrite size_singleton.
Qed.

Lemma size_insert_difference (x : Z) (R P : gset Z) :
  x ∉ R → x ∉ P → size (({[x]} ∪ R) ∖ P) = S (size (R ∖ P)).
Proof.
  intros Hx Hout.
  replace (({[x]} ∪ R) ∖ P) with ({[x]} ∪ R ∖ P) by set_solver.
  rewrite size_union by set_solver. by rewrite size_singleton.
Qed.

Section GapDetectorBehaviour.

Variable get_sample_number : Z → Z.

Lemma find_dropped_samples_in_range samples n :
  in_int n →
  find_dropped_samples get_sample_number samples n
  = Z.of_nat (size (reference_set n ∖ present_set get_sample_number samples)).
Proof.
  intros Hint. rewrite find_dropped_samples_by_sets. apply to_int_id.
  assert (Hle : (size (reference_set n ∖ present_set get_sample_number samples)
                 ≤ Z.to_nat n)%nat).
  { rewrite <- size_reference_set. apply subseteq_size. set_solver. }
  unfold in_int, INT_MIN, INT_MAX in *. lia.
Qed.

Lemma size_present_set_le samples :
  (size (present_set get_sample_number samples) ≤ length samples)%nat.
Proof.
  unfold present_set. induction samples as [|s samples IH].
  - rewrite fmap_nil, list_to_set_nil, size_empty. done.
  - rewrite fmap_cons, list_to_set_cons, size_union_alt, size_singleton.
    cbn [length].
    assert ((size (list_to_set (get_sample_number <$> samples)
                   ∖ ({[get_sample_number s]} : gset Z)))
            ≤ size (list_to_set (get_sample_number <$> samples) : gset Z))%nat
      by (apply subseteq_size; set_solver).
    lia.
Qed.

Lemma present_set_cons s samples :
  present_set get_sample_number (s :: samples)
  = {[ get_sample_number s ]} ∪ present_set get_sample_number samples.
Proof. reflexivity. Qed.

(** X1: the dropped count lies between 0 and the expected count, and it is
    at least the expected count less the number of samples: a list with
    fewer samples than expected always reports drops, and the empty list
    reports all of them. *)
Theorem find_dropped_samples_bounds (samples : list Z) (number_of_samples : Z) :
  in_int number_of_samples →
  Z.max 0 (number_of_samples - Z.of_nat (length samples))
  ≤ find_dropped_samples get_sample_number samples number_of_samples
  ≤ Z.max 0 number_of_samples.
Proof.
  intros Hint. rewrite find_dropped_samples_in_range by done.
  pose proof (size_reference_set number_of_samples) as Href.
  pose proof (size_present_set_le samples) as Hpres.
  pose proof (size_difference_alt (reference_set number_of_samples)
                (present_set get_sample_number samples)) as Hdiff.
  assert (Hcap : (size (reference_set number_of_samples
                        ∩ present_set get_sample_number samples)
                  ≤ size (present_set get_sample_number samples))%nat)
    by (apply subseteq_size; set_solver).
  assert (Hcap' : (size (reference_set number_of_samples
                         ∩ present_set get_sample_number samples)
                   ≤ size (reference_set number_of_samples))%nat)
    by (apply subseteq_size; set_solver).
  lia.
Qed.

(** X2: what one more sample does to the result.  A sample whose sequence
    number lies in [0, number_of_samples) and does not occur among the
    others lowers the dropped count by exactly one; any other sample (a
    number below 0, a number at or above number_of_samples, a number seen
    before) leaves it unchanged. *)
Theorem find_dropped_samples_one_more (sample : Z) (samples : list Z)
    (number_of_samples : Z) :
  in_int number_of_samples →
  find_dropped_samples get_sample_number (sample :: samples) number_of_samples
  = find_dropped_samples get_sample_number samples number_of_samples
    - (if decide (0 ≤ get_sample_number sample < number_of_samples
                  ∧ get_sample_number sample ∉ present_set get_sample_number samples)
       then 1 else 0).
Proof.
  intros Hint. rewrite !find_dropped_samples_in_range by done.
  rewrite present_set_cons.
  set (x := get_sample_number sample).
  set (P := present_set get_sample_number samples).
  set (R := reference_set number_of_samples).
  destruct (decide (0 ≤ x < number_of_samples ∧ x ∉ P)) as [[Hin Hnew]|Hno].
  - assert (Hx : x ∈ R) by (by apply elem_of_reference_set).
    rewrite (size_difference_more x R P Hx Hnew). lia.
  - assert (Hsame : R ∖ ({[x]} ∪ P) = R ∖ P).
    { apply set_eq. intros k. rewrite !elem_of_difference, elem_of_union,
        elem_of_singleton. subst R. rewrite elem_of_reference_set.
      split; [tauto|]. intros [Hk HkP]. split; [done|].
      intros [->|?]; tauto. }
    rewrite Hsame. lia.
Qed.

(** X3: the result is 0 exactly when every number of
    [0, number_of_samples) is the sequence number of some sample; numbers
    outside that range and repeated numbers do not matter. *)
Theorem find_dropped_samples_zero_iff (samples : list Z) (number_of_samples : Z) :
  in_int number_of_samples →
  find_dropped_samples get_sample_number samples number_of_samples = 0
  ↔ ∀ k, 0 ≤ k < number_of_samples →
         ∃ sample, sample ∈ samples ∧ get_sample_number sample = k.
Proof.
  intros Hint. rewrite find_dropped_samples_in_range by done.
  rewrite <- Nat2Z.inj_0, Nat2Z.inj_iff, size_empty_iff.
  split.
  - intros Hempty k Hk.
    assert (Hp : k ∈ present_set get_sample_number samples).
    { destruct (decide (k ∈ present_set get_sample_number samples)); [done|].
      exfalso. apply (not_elem_of_empty (C:=gset Z) k). rewrite <- Hempty.
      apply elem_of_difference. by rewrite elem_of_reference_set. }
    unfold present_set in Hp.
    rewrite elem_of_list_to_set, list_elem_of_fmap in Hp.
    destruct Hp as (sample & -> & Hin). eauto.
  - intros Hall. apply set_equiv. intros k.
    rewrite elem_of_difference, elem_of_reference_set. split; [|set_solver].
    intros [Hk Hnot]. exfalso. apply Hnot.
    destruct (Hall k Hk) as (sample & Hin & <-).
    unfold present_set. rewrite elem_of_list_to_set. by apply list_elem_of_fmap_2.
Qed.

(** X4: raising the expected count by one adds one drop when the new last
    number is not among the samples' sequence numbers and adds none when it
    is. *)
Theorem find_dropped_samples_next_count (samples : list Z) (number_of_samples : Z) :
  0 ≤ number_of_samples → in_int (number_of_samples + 1) →
  find_dropped_samples get_sample_number samples (number_of_samples + 1)
  = find_dropped_samples get_sample_number samples number_of_samples
    + (if decide (number_of_samples ∈ present_set get_sample_number samples)
       then 0 else 1).
Proof.
  intros Hpos Hint.
  assert (Hint' : in_int number_of_samples)
    by (unfold in_int, INT_MIN, INT_MAX in *; lia).
  rewrite !find_dropped_samples_in_range by done.
  set (P := present_set get_sample_number samples).
  assert (Href : reference_set (number_of_samples + 1)
                 = {[number_of_samples]} ∪ reference_set number_of_samples).
  { apply set_eq. intros k.
    rewrite elem_of_union, elem_of_singleton, !elem_of_reference_set. lia. }
  assert (Hfresh : number_of_samples ∉ reference_set number_of_samples)
    by (rewrite elem_of_reference_set; lia).
  rewrite Href. destruct (decide (number_of_samples ∈ P)) as [Hin|Hout].
  - replace (({[number_of_samples]} ∪ reference_set number_of_samples) ∖ P)
      with (reference_set number_of_samples ∖ P) by set_solver.
    lia.
  - rewrite (size_insert_difference _ _ _ Hfresh Hout). lia.
Qed.

End GapDetectorBehaviour.

(** ** The frame reader touches the port only *)

Section PortOnlyFacts.

Context {object : Type}.

Implicit Types (w : world object).

Lemma on_port_serial w : on_port w (serial w) = w.
Proof. by destruct w. Qed.

Lemma outcome_on_port_on_port {A} w events (o : outcome object A) :
  outcome_on_port (on_port w events) o = outcome_on_port w o.
Proof. by destruct o. Qed.

Lemma outcome_on_port_idemp {A} w w0 (o : outcome object A) :
  outcome_on_port w (outcome_on_port w0 o) = outcome_on_port w o.
Proof. by destruct o. Qed.

Lemma port_only_ret {A} (a : A) : port_only (object:=object) (mret a).
Proof. intros w. unfold mret, M_ret. simpl. by rewrite on_port_serial. Qed.

Lemma port_only_throw {A} e : port_only (object:=object) (throw (A:=A) e).
Proof. intros w. unfold throw. simpl. by rewrite on_port_serial. Qed.

Lemma port_only_out_of_fuel {A} : port_only (object:=object) (out_of_fuel (A:=A)).
Proof. by intros w. Qed.

Lemma port_only_bind {A B} (m : M object A) (f : A → M object B) :
  port_only m → (∀ a, port_only (f a)) → port_only (m ≫= f).
Proof.
  intros Hm Hf w. unfold mbind, M_bind. rewrite (Hm w).
  destruct (m (port_world (serial w))) as [a w0| | |]; simpl; try done.
  rewrite (Hf a (on_port w (serial w0))), (Hf a w0). simpl.
  by rewrite outcome_on_port_on_port, outcome_on_port_idemp.
Qed.

Lemma port_only_sys_read count : port_only (object:=object) (sys_read count).
Proof.
  intros w. unfold sys_read. simpl.
  destruct (serial w) as [|[bs|] rest] eqn:Hs; simpl.
  - by rewrite <- Hs, on_port_serial.
  - done.
  - done.
Qed.

Lemma port_only_vector_resize buffer len :
  port_only (object:=object) (vector_resize buffer len).
Proof.
  unfold vector_resize. destruct (vector_max_size <? len `mod` 2 ^ 64).
  - apply port_only_throw.
  - apply port_only_ret.
Qed.

Lemma port_only_read_data : port_only (object:=object) read_data_from_serial_port.
Proof.
  unfold read_data_from_serial_port. apply port_only_bind.
  - apply port_only_sys_read.
  - intros [len got]. apply port_only_vector_resize.
Qed.

Lemma port_only_read_until_enough fuel :
  ∀ raw_data, port_only (object:=object) (read_until_enough fuel raw_data).
Proof.
  induction fuel as [|fuel IH]; intros raw_data; simpl;
    destruct (length raw_data <? FRAME_SIZE)%nat.
  - apply port_only_out_of_fuel.
  - apply port_only_ret.
  - apply port_only_bind; [apply port_only_read_data|]. intros more. apply IH.
  - apply port_only_ret.
Qed.

Lemma port_only_read_raw_data fuel : port_only (object:=object) (read_raw_data fuel).
Proof.
  unfold read_raw_data. apply port_only_bind; [apply port_only_read_data|].
  intros raw_data. destruct (length raw_data <? FRAME_SIZE)%nat.
  - apply port_only_read_until_enough.
  - apply port_only_ret.
Qed.

Lemma port_only_read_response (unpack : list byte → option (list object)) fuel :
  port_only (read_response unpack fuel).
Proof.
  unfold read_response. apply port_only_bind; [apply port_only_read_raw_data|].
  intros raw_data. destruct (unpack raw_data).
  - apply port_only_ret.
  - apply port_only_throw.
Qed.

Lemma port_only_Returned {A} (m : M object A) w a w' :
  port_only m → m w = Returned a w' →
  clock w' = clock w ∧ ticks w' = ticks w ∧ stdout w' = stdout w.
Proof.
  intros Hm. rewrite (Hm w).
  destruct (m (port_world (serial w))); simpl; [|done..].
  by intros [= <- <-].
Qed.

(** X5: [read_response] reads and changes the serial port and nothing
    else.  Its outcome on any world is its outcome on the bare port, put
    back beside the caller's clock and standard output: it takes no clock
    reading, prints nothing, and behaves the same whatever the clock shows
    and whatever has been printed. *)
Theorem read_response_port_only (unpack : list byte → option (list object))
    (fuel : nat) (w : world object) :
  read_response unpack fuel w
  = outcome_on_port w (read_response unpack fuel (port_world (serial w)))
  ∧ (∀ result w', read_response unpack fuel w = Returned result w' →
       clock w' = clock w ∧ ticks w' = ticks w ∧ stdout w' = stdout w)
  ∧ (∀ w2 result w', serial w2 = serial w →
       read_response unpack fuel w = Returned result w' →
       read_response unpack fuel w2 = Returned result (on_port w2 (serial w'))).
Proof.
  pose proof (port_only_read_response unpack fuel) as Hport.
  split; [apply Hport|]. split.
  - intros result w'. by apply port_only_Returned.
  - intros w2 result w' Hs. rewrite (Hport w), (Hport w2), Hs.
    destruct (read_response unpack fuel (port_world (serial w))); simpl; [|done..].
    by intros [= <- <-].
Qed.

End PortOnlyFacts.

Lemma read_response_port_only_witness :
  ∃ w', read_response fixint_unpack 0 (fresh_world [ReadBytes frame_of_ones])
        = Returned (replicate 38 1) w'
        ∧ ticks w' = 0%nat
        ∧ read_response fixint_unpack 0
            (World [ReadBytes frame_of_ones] (λ _, 7) 3 [[5]])
          = Returned (replicate 38 1) (World [] (λ _, 7) 3 [[5]]).
Proof.
  destruct (read_response_port_only fixint_unpack 0
              (fresh_world [ReadBytes frame_of_ones])) as (_ & Hkeep & Hsame).
  assert (Hrun : read_response fixint_unpack 0 (fresh_world [ReadBytes frame_of_ones])
                 = Returned (replicate 38 1) (fresh_world [])) by reflexivity.
  exists (fresh_world []). split; [exact Hrun|]. split.
  - exact (proj1 (proj2 (Hkeep _ _ Hrun))).
  - exact (Hsame (World [ReadBytes frame_of_ones] (λ _, 7) 3 [[5]]) _ _ eq_refl Hrun).
Defined.

(** ** The frame reader on a silent and on a sufficient port *)

Section FrameReaderBehaviour.

Context {object : Type} (unpack : list byte → option (list object)).

Implicit Types (w : world object) (raw : list byte).

Lemma read_data_silent w :
  ReadError ∉ serial w →
  ∃ chunk w', read_data_from_serial_port w = Returned chunk w'
              ∧ (ReadError ∉ serial w')
              ∧ pending_bytes (serial w) = chunk ++ pending_bytes (serial w').
Proof.
  intros Hsilent. destruct (serial w) as [|[bs|] rest] eqn:Hs.
  - exists [], w. rewrite (read_data_eof w Hs), Hs. by repeat split.
  - rewrite (read_data_bytes w bs rest Hs). do 2 eexists. split; [reflexivity|].
    simpl. apply not_elem_of_cons in Hsilent as [_ Hrest].
    destruct (drop FRAME_SIZE bs) as [|b left] eqn:Hd.
    + split; [done|]. rewrite <- (take_drop FRAME_SIZE bs) at 1.
      by rewrite Hd, app_nil_r.
    + split; [by apply not_elem_of_cons|]. simpl.
      rewrite <- (take_drop FRAME_SIZE bs) at 1. by rewrite Hd, <- app_assoc.
  - exfalso. apply Hsilent. left.
Qed.

Lemma read_until_enough_starved fuel : ∀ raw w,
  ReadError ∉ serial w →
  (length raw + length (pending_bytes (serial w)) < FRAME_SIZE)%nat →
  read_until_enough fuel raw w = OutOfFuel.
Proof.
  induction fuel as [|fuel IH]; intros raw w Hsilent Hfew; simpl;
    rewrite (proj2 (Nat.ltb_lt _ _)) by lia; [done|].
  destruct (read_data_silent w Hsilent) as (chunk & w' & Hread & Hsilent' & Hpend).
  erewrite bind_Returned by exact Hread. apply IH; [done|].
  rewrite Hpend, length_app in Hfew. rewrite length_app. lia.
Qed.

Lemma read_response_starved fuel w :
  ReadError ∉ serial w →
  (length (pending_bytes (serial w)) < FRAME_SIZE)%nat →
  read_response unpack fuel w = OutOfFuel.
Proof.
  intros Hsilent Hfew. unfold read_response, read_raw_data, mbind, M_bind.
  destruct (read_data_silent w Hsilent) as (chunk & w' & Hread & Hsilent' & Hpend).
  rewrite Hread. rewrite Hpend, length_app in Hfew.
  rewrite (proj2 (Nat.ltb_lt _ _)) by lia.
  rewrite read_until_enough_starved; [done|done|lia].
Qed.

(** X6: [read_data_from_serial_port] throws exactly when [read] fails, and
    then it is [std::length_error]; when it returns, the buffer has at most
    38 bytes and they are the next bytes pending on the port, none lost and
    none invented (at end of input the buffer is empty). *)
Theorem read_data_from_serial_port_contract (w : world object) :
  ((∃ e w', read_data_from_serial_port w = Thrown e w')
   ↔ ∃ rest, serial w = ReadError :: rest)
  ∧ (∀ e w', read_data_from_serial_port w = Thrown e w' →
       e = length_error ∧ serial w = ReadError :: serial w')
  ∧ (∀ chunk w', read_data_from_serial_port w = Returned chunk w' →
       (length chunk ≤ 38)%nat
       ∧ pending_bytes (serial w) = chunk ++ pending_bytes (serial w')).
Proof.
  destruct (serial w) as [|[bs|] rest] eqn:Hs.
  - rewrite (read_data_eof w Hs). repeat split; try done.
    + intros (e & w' & H). discriminate H.
    + intros (rest & H). discriminate H.
    + injection H as <- <-. simpl. lia.
    + injection H as <- <-. by rewrite Hs.
  - pose proof (read_data_returned w) as Hret.
    rewrite (read_data_bytes w bs rest Hs) in *. repeat split; try done.
    + intros (e & w' & H). discriminate H.
    + intros (rest' & H). discriminate H.
    + by destruct (Hret _ _ H).
    + rewrite <- Hs. by destruct (Hret _ _ H).
  - rewrite (read_data_error w rest Hs). repeat split; try done.
    + eauto.
    + eauto.
    + by injection H as <- <-.
    + by injection H as <- <-.
Qed.

(** X7: on a port that brings no read error and fewer than 38 bytes in all
    (a device that has stopped sending, end of input included),
    [read_response] neither returns nor throws, whatever the fuel: the loop
    [while (raw_data.size() < 38)] reads on for ever.  An acquisition that
    still has a sample to take hangs with it. *)
Theorem read_response_starves (self : HackEEG) (fuel : nat)
    (max_samples : Z) (duration : float) (speed : Z) (display_output : bool)
    (w : world object) :
  ReadError ∉ serial w →
  (length (pending_bytes (serial w)) < FRAME_SIZE)%nat →
  read_response unpack fuel w = OutOfFuel
  ∧ (let p := resolve_parameters self max_samples duration speed in
     ∀ max_sample_time,
       p_max_sample_time p = Some max_sample_time →
       0 < Z.min (p_max_samples p) max_sample_time →
       acquire_data_cpp unpack self fuel max_samples duration speed display_output w
       = OutOfFuel).
Proof.
  intros Hsilent Hfew. split; [by apply read_response_starved|].
  intros p max_sample_time Hmst Hcap.
  rewrite (acquire_data_cpp_run _ _ _ _ _ _ _ _ _ Hmst). fold p.
  assert (Hcond : ∀ t, loop_condition (p_max_samples p) max_sample_time
                         (LoopState (object:=object) [] 0 t) = true).
  { intros t. apply loop_condition_spec. cbn [sample_counter]. lia. }
  destruct fuel as [|fuel]; simpl; rewrite Hcond; [done|].
  unfold mbind, M_bind. rewrite loop_body_run.
  rewrite read_response_starved; done.
Qed.

Lemma read_until_enough_sufficient chunks : ∀ fuel raw w rest,
  serial w = (ReadBytes <$> chunks) ++ rest →
  (FRAME_SIZE ≤ length raw + length (concat chunks))%nat →
  (length chunks ≤ fuel)%nat →
  ∃ raw' w', read_until_enough fuel raw w = Returned raw' w'.
Proof.
  induction chunks as [|chunk chunks IH]; intros fuel raw w rest Hs Hsum Hfuel.
  - simpl in Hsum. exists raw, w.
    destruct fuel; simpl; rewrite (proj2 (Nat.ltb_ge _ _)) by lia; done.
  - simpl in Hsum, Hfuel. rewrite length_app in Hsum.
    assert (Hs' : serial w = ReadBytes chunk :: ((ReadBytes <$> chunks) ++ rest))
      by exact Hs.
    destruct (Nat.ltb_spec (length raw) FRAME_SIZE) as [Hlt|Hge].
    2:{ exists raw, w. destruct fuel; simpl;
          rewrite (proj2 (Nat.ltb_ge _ _)) by lia; done. }
    destruct fuel as [|fuel]; [lia|]. simpl.
    rewrite (proj2 (Nat.ltb_lt _ _)) by done.
    erewrite bind_Returned by apply (read_data_bytes w chunk _ Hs').
    cbv beta.
    destruct (Nat.le_gt_cases (length chunk) FRAME_SIZE) as [Hshort|Hlong].
    + rewrite take_ge, drop_ge by done.
      apply (IH fuel (raw ++ chunk) _ rest); [done| |lia].
      rewrite length_app. lia.
    + do 2 eexists.
      destruct fuel; simpl;
        rewrite (proj2 (Nat.ltb_ge _ _))
          by (rewrite length_app, length_take; lia); reflexivity.
Qed.

(** X8: as soon as the reads to come bring 38 bytes or more before any read
    error, the accumulation of [read_response] returns, after at most as
    many reads as it takes to bring them, with a buffer of at least 38 and
    fewer than 76 bytes that is the beginning of the pending bytes. *)
Theorem read_raw_data_returns (fuel : nat) (w : world object)
    (chunks : list (list byte)) (rest : list read_event) :
  serial w = (ReadBytes <$> chunks) ++ rest →
  (FRAME_SIZE ≤ length (concat chunks))%nat →
  (length chunks ≤ S fuel)%nat →
  ∃ raw w', read_raw_data fuel w = Returned raw w'
            ∧ (38 ≤ length raw < 76)%nat
            ∧ pending_bytes (serial w) = raw ++ pending_bytes (serial w').
Proof.
  intros Hs Hsum Hfuel.
  assert (Hrun : ∃ raw w', read_raw_data fuel w = Returned raw w').
  { destruct chunks as [|chunk chunks]; [simpl in Hsum; unfold FRAME_SIZE in Hsum; lia|].
    simpl in Hsum, Hfuel. rewrite length_app in Hsum.
    assert (Hs' : serial w = ReadBytes chunk :: ((ReadBytes <$> chunks) ++ rest))
      by exact Hs.
    unfold read_raw_data.
    erewrite bind_Returned by apply (read_data_bytes w chunk _ Hs').
    cbv beta.
    destruct (Nat.ltb_spec (length (take FRAME_SIZE chunk)) FRAME_SIZE) as [Hlt|Hge];
      [|eauto].
    rewrite length_take in Hlt.
    rewrite take_ge, drop_ge by lia.
    apply (read_until_enough_sufficient chunks fuel chunk _ rest); [done|lia|lia]. }
  destruct Hrun as (raw & w' & Hrun). exists raw, w'. split; [exact Hrun|].
  destruct (read_raw_data_returned _ _ _ _ Hrun) as [Hpend Hlen].
  unfold FRAME_SIZE in Hlen. split; [lia|exact Hpend].
Qed.

End FrameReaderBehaviour.

(** ** Acquisition over complete frames *)

Section AcquisitionBehaviour.

Context {object : Type} (unpack : list byte → option (list object)).

Implicit Types (w : world object) (st : loop_state object).

Lemma acquire_loop_stop read_fuel fuel max_samples max_sample_time display_output st w :
  loop_condition max_samples max_sample_time st = false →
  acquire_loop unpack read_fuel fuel max_samples max_sample_time display_output st w
  = Returned st w.
Proof. intros Hcond. destruct fuel; simpl; by rewrite Hcond. Qed.

Lemma acquire_loop_turn read_fuel fuel max_samples max_sample_time display_output st w :
  loop_condition max_samples max_sample_time st = true →
  acquire_loop unpack read_fuel (S fuel) max_samples max_sample_time display_output st w
  = match loop_body unpack read_fuel display_output st w with
    | Returned st' w' =>
        acquire_loop unpack read_fuel fuel max_samples max_sample_time
          display_output st' w'
    | Thrown e w' => Thrown e w'
    | OutOfFuel => OutOfFuel
    | Undefined => Undefined
    end.
Proof. intros Hcond. simpl. by rewrite Hcond. Qed.

(** The first turns of the loop, when the port delivers complete frames
    that decode: each turn takes one frame, and the loop goes on from the
    state reached. *)
Lemma acquire_loop_frames read_fuel max_samples max_sample_time display_output :
  ∀ frames results st w rest,
  serial w = (ReadBytes <$> frames) ++ rest →
  Forall2 (λ frame result, length frame = FRAME_SIZE ∧ unpack frame = Some result)
    frames results →
  in_int max_samples → 0 ≤ sample_counter st →
  sample_counter st + Z.of_nat (length frames) ≤ Z.min max_samples max_sample_time →
  ∃ st' w',
    (∀ fuel,
       acquire_loop unpack read_fuel (length frames + fuel) max_samples
         max_sample_time display_output st w
       = acquire_loop unpack read_fuel fuel max_samples max_sample_time
           display_output st' w')
    ∧ samples st' = samples st ++ results
    ∧ sample_counter st' = sample_counter st + Z.of_nat (length frames)
    ∧ serial w' = rest
    ∧ clock w' = clock w
    ∧ ticks w' = (ticks w + length frames)%nat
    ∧ stdout w' = stdout w ++ (if display_output then results else []).
Proof.
  intros frames results st w rest Hs Hall. revert st w Hs.
  induction Hall as [|frame result frames results [Hlen Hun] Hall IH];
    intros st w Hs Hint Hpos Hcap.
  - exists st, w. simpl. rewrite !app_nil_r, Z.add_0_r, Nat.add_0_r.
    destruct display_output; by rewrite ?app_nil_r.
  - rewrite length_cons, Nat2Z.inj_succ in Hcap.
    assert (Hs' : serial w = ReadBytes frame :: ((ReadBytes <$> frames) ++ rest))
      by exact Hs.
    pose proof (read_response_frame unpack read_fuel w frame _ Hs' Hlen) as Hread.
    rewrite Hun in Hread.
    edestruct (IH (LoopState (samples st ++ [result]) (sample_counter st + 1)
                     (double_of_int (clock w (ticks w))))
                  (World ((ReadBytes <$> frames) ++ rest) (clock w) (S (ticks w))
                     (if display_output then stdout w ++ [result] else stdout w)))
      as (st' & w' & Hrun & Hsm & Hc & Hrest & Hclock & Hticks & Hout);
      [reflexivity|done|simpl; lia|simpl; lia|].
    exists st', w'. simpl in Hsm, Hc, Hclock, Hticks, Hout. split.
    + intros fuel. rewrite <- Hrun. simpl.
      replace (loop_condition max_samples max_sample_time st) with true
        by (symmetry; apply loop_condition_spec; lia).
      erewrite bind_Returned; [reflexivity|].
      rewrite loop_body_run, Hread. simpl.
      by rewrite (to_int_succ _ max_samples) by (done || lia).
    + rewrite Hsm, Hc, Hticks, Hout, <- app_assoc, length_cons, Nat2Z.inj_succ.
      repeat split; try done; try lia.
      destruct display_output; by rewrite <- ?app_assoc.
Qed.

Lemma acquire_loop_frames_from read_fuel max_samples max_sample_time display_output
    frames results st w rest fuel :
  serial w = (ReadBytes <$> frames) ++ rest →
  Forall2 (λ frame result, length frame = FRAME_SIZE ∧ unpack frame = Some result)
    frames results →
  in_int max_samples → 0 ≤ sample_counter st →
  sample_counter st + Z.of_nat (length frames) ≤ Z.min max_samples max_sample_time →
  (length frames ≤ fuel)%nat →
  ∃ st' w',
    acquire_loop unpack read_fuel fuel max_samples max_sample_time display_output st w
    = acquire_loop unpack read_fuel (fuel - length frames) max_samples
        max_sample_time display_output st' w'
    ∧ samples st' = samples st ++ results
    ∧ sample_counter st' = sample_counter st + Z.of_nat (length frames)
    ∧ serial w' = rest.
Proof.
  intros Hs Hall Hint Hpos Hcap Hfuel.
  destruct (acquire_loop_frames read_fuel max_samples max_sample_time display_output
              frames results st w rest Hs Hall Hint Hpos Hcap)
    as (st' & w' & Hrun & Hsm & Hc & Hrest & _).
  exists st', w'. rewrite <- Hrun.
  replace (length frames + (fuel - length frames))%nat with fuel by lia. done.
Qed.

(** What a run of the loop leaves behind, on any port: the samples appended,
    the clock readings taken, the lines printed and the bytes used up. *)
Lemma read_response_returned read_fuel w result w' :
  read_response unpack read_fuel w = Returned result w' →
  clock w' = clock w ∧ ticks w' = ticks w ∧ stdout w' = stdout w
  ∧ ∃ raw, pending_bytes (serial w) = raw ++ pending_bytes (serial w')
           ∧ (FRAME_SIZE ≤ length raw < 2 * FRAME_SIZE)%nat.
Proof.
  intros Hrun.
  destruct (port_only_Returned _ _ _ _ (port_only_read_response unpack read_fuel) Hrun)
    as (Hc & Ht & Ho).
  repeat split; try done.
  unfold read_response in Hrun.
  apply bind_Returned_inv in Hrun as (raw & w1 & Hraw & Hun).
  destruct (unpack raw); [|discriminate Hun]. injection Hun as <- <-.
  exists raw. by apply read_raw_data_returned in Hraw.
Qed.

Lemma acquire_loop_trace read_fuel max_samples max_sample_time display_output fuel :
  ∀ st w st' w',
  in_int max_samples → 0 ≤ sample_counter st →
  acquire_loop unpack read_fuel fuel max_samples max_sample_time display_output st w
  = Returned st' w' →
  ∃ new consumed,
    samples st' = samples st ++ new
    ∧ sample_counter st' = sample_counter st + Z.of_nat (length new)
    ∧ clock w' = clock w
    ∧ ticks w' = (ticks w + length new)%nat
    ∧ stdout w' = stdout w ++ (if display_output then new else [])
    ∧ end_time st' = match new with
                     | [] => end_time st
                     | _ => double_of_int (clock w (ticks w + length new - 1)%nat)
                     end
    ∧ pending_bytes (serial w) = consumed ++ pending_bytes (serial w')
    ∧ (FRAME_SIZE * length new ≤ length consumed
       ≤ (2 * FRAME_SIZE - 1) * length new)%nat.
Proof.
  induction fuel as [|fuel IH]; intros st w st' w' Hint Hpos Hrun.
  - destruct (loop_condition max_samples max_sample_time st) eqn:Hcond;
      simpl in Hrun; rewrite Hcond in Hrun; [discriminate|].
    injection Hrun as <- <-. exists [], []. simpl.
    rewrite !app_nil_r, Z.add_0_r, Nat.add_0_r.
    repeat split; try done; try lia.
    destruct display_output; by rewrite app_nil_r.
  - destruct (loop_condition max_samples max_sample_time st) eqn:Hcond.
    2:{ rewrite acquire_loop_stop in Hrun by done.
        injection Hrun as <- <-. exists [], []. simpl.
        rewrite !app_nil_r, Z.add_0_r, Nat.add_0_r.
        repeat split; try done; try lia.
    destruct display_output; by rewrite app_nil_r. }
    rewrite acquire_loop_turn, loop_body_run in Hrun by done.
    apply loop_condition_spec in Hcond as [Hlt _].
    destruct (read_response unpack read_fuel w) as [result w1| | |] eqn:Hread;
      try discriminate.
    apply read_response_returned in Hread
      as (Hc1 & Ht1 & Ho1 & raw & Hpend1 & Hlen1).
    apply IH in Hrun as (new & consumed & Hsm & Hcnt & Hc & Ht & Ho & He & Hpend & Hlen);
      [|done|simpl; rewrite (to_int_succ _ max_samples) by done; lia].
    simpl in Hsm, Hcnt, Hc, Ht, Ho, He, Hpend.
    rewrite (to_int_succ _ max_samples) in Hcnt by done.
    exists (result :: new), (raw ++ consumed).
    rewrite Hsm, Hcnt, Hc, Hc1, Ht, Ht1, Ho, Ho1, Hpend1, Hpend, <- !app_assoc.
    rewrite length_cons, length_app, Nat2Z.inj_succ.
    unfold FRAME_SIZE in *. repeat split; try done; try lia.
    + destruct display_output; by rewrite <- ?app_assoc, ?app_nil_r.
    + rewrite He. destruct new as [|r new]; simpl.
      * rewrite Hc1, Ht1. f_equal. f_equal. lia.
      * rewrite Hc1, Ht1. f_equal. f_equal. lia.
Qed.

(** Two runs of the loop that differ in [display_output] and in what has
    been printed, but not in the port and the clock, go the same way. *)
Lemma acquire_loop_display read_fuel max_samples max_sample_time d1 d2 fuel :
  ∀ st w1 w2,
  serial w1 = serial w2 → clock w1 = clock w2 → ticks w1 = ticks w2 →
  match acquire_loop unpack read_fuel fuel max_samples max_sample_time d1 st w1,
        acquire_loop unpack read_fuel fuel max_samples max_sample_time d2 st w2 with
  | Returned st1 w1', Returned st2 w2' =>
      st1 = st2 ∧ serial w1' = serial w2' ∧ ticks w1' = ticks w2'
  | Thrown e1 w1', Thrown e2 w2' =>
      e1 = e2 ∧ serial w1' = serial w2' ∧ ticks w1' = ticks w2'
  | OutOfFuel, OutOfFuel => True
  | Undefined, Undefined => True
  | _, _ => False
  end.
Proof.
  induction fuel as [|fuel IH]; intros st w1 w2 Hs Hc Ht.
  - simpl. by destruct (loop_condition max_samples max_sample_time st).
  - destruct (loop_condition max_samples max_sample_time st) eqn:Hcond.
    2:{ by rewrite !acquire_loop_stop by done. }
    rewrite !acquire_loop_turn, !loop_body_run by done.
    rewrite (port_only_read_response unpack read_fuel w1),
      (port_only_read_response unpack read_fuel w2), Hs.
    destruct (read_response unpack read_fuel (port_world (serial w2)))
      as [result w0|e w0| |]; simpl; [|done..].
    rewrite Hc, Ht. apply IH; simpl; congruence.
Qed.

(** X9: when the port delivers complete frames that decode, as many as the
    caps allow, [acquire_data_cpp] returns one element per frame, in the
    order of arrival, each the objects decoded from its own frame; the
    frames beyond the cap stay on the port.  The cap is the smaller of
    [max_samples] and [max_sample_time], the latter being the [float]
    product of line 80 converted to [int]. *)
Theorem acquire_data_cpp_arrival_order (self : HackEEG) (fuel : nat)
    (max_samples : Z) (duration : float) (speed : Z) (display_output : bool)
    (w : world object) (frames : list (list byte)) (results : list (list object))
    (rest : list read_event) (max_sample_time : Z) :
  let p := resolve_parameters self max_samples duration speed in
  in_int max_samples → in_int (max_samples_ self) →
  p_max_sample_time p = Some max_sample_time →
  serial w = (ReadBytes <$> frames) ++ rest →
  Forall2 (λ frame result, length frame = FRAME_SIZE ∧ unpack frame = Some result)
    frames results →
  Z.of_nat (length frames) = Z.max 0 (Z.min (p_max_samples p) max_sample_time) →
  (length frames ≤ fuel)%nat →
  ∃ elapsed w',
    acquire_data_cpp unpack self fuel max_samples duration speed display_output w
    = Returned (results, Z.of_nat (length results), elapsed) w'
    ∧ serial w' = rest.
Proof.
  intros p H1 H2 Hmst Hs Hall Hcap Hfuel.
  destruct (decide (Z.min (p_max_samples p) max_sample_time ≤ 0)) as [Hno|Hyes].
  { assert (Hnil : frames = []) by (apply nil_length_inv; lia).
    subst frames. apply Forall2_nil_inv_l in Hall as ->.
    rewrite (acquire_data_cpp_no_turn unpack _ _ _ _ _ _ _ _ Hmst) by exact Hno.
    do 2 eexists. split; [reflexivity|]. by rewrite Hs. }
  rewrite (acquire_data_cpp_run _ _ _ _ _ _ _ _ _ Hmst). fold p.
  edestruct (acquire_loop_frames_from fuel (p_max_samples p) max_sample_time
               display_output frames results
               (LoopState [] 0 (double_of_int (clock w (ticks w))))
               (World (serial w) (clock w) (S (S (ticks w))) (stdout w)) rest fuel)
    as (st' & w' & Hrun & Hsm & Hc & Hrest);
    [exact Hs|exact Hall|by apply resolve_parameters_in_int
    |cbn [sample_counter]; lia|cbn [sample_counter]; lia|exact Hfuel|].
  cbn [samples sample_counter] in Hsm, Hc. simpl in Hsm.
  rewrite Hrun.
  assert (Hstop : loop_condition (p_max_samples p) max_sample_time st' = false).
  { apply not_true_iff_false. rewrite loop_condition_spec. lia. }
  rewrite acquire_loop_stop by exact Hstop. do 2 eexists. split; [|exact Hrest].
  rewrite Hsm, Hc. by rewrite (Forall2_length _ _ _ Hall).
Qed.

(** X10: a frame that does not decode ends the acquisition.  When the
    unpacker throws on a frame that the loop reaches, [msgpack::parse_error]
    leaves [acquire_data_cpp]: the frame is not skipped, the frames after
    it are not read, and the samples decoded before it are not returned. *)
Theorem acquire_data_cpp_decode_error (self : HackEEG) (fuel : nat)
    (max_samples : Z) (duration : float) (speed : Z) (display_output : bool)
    (w : world object) (frames : list (list byte)) (results : list (list object))
    (bad : list byte) (rest : list read_event) (max_sample_time : Z) :
  let p := resolve_parameters self max_samples duration speed in
  in_int max_samples → in_int (max_samples_ self) →
  p_max_sample_time p = Some max_sample_time →
  serial w = (ReadBytes <$> frames) ++ ReadBytes bad :: rest →
  Forall2 (λ frame result, length frame = FRAME_SIZE ∧ unpack frame = Some result)
    frames results →
  length bad = FRAME_SIZE → unpack bad = None →
  Z.of_nat (length frames) < Z.min (p_max_samples p) max_sample_time →
  (length frames < fuel)%nat →
  ∃ w',
    acquire_data_cpp unpack self fuel max_samples duration speed display_output w
    = Thrown parse_error w'
    ∧ serial w' = rest.
Proof.
  intros p H1 H2 Hmst Hs Hall Hbad Hnone Hcap Hfuel.
  rewrite (acquire_data_cpp_run _ _ _ _ _ _ _ _ _ Hmst). fold p.
  edestruct (acquire_loop_frames_from fuel (p_max_samples p) max_sample_time
               display_output frames results
               (LoopState [] 0 (double_of_int (clock w (ticks w))))
               (World (serial w) (clock w) (S (S (ticks w))) (stdout w))
               (ReadBytes bad :: rest) fuel)
    as (st' & w' & Hrun & Hsm & Hc & Hrest);
    [exact Hs|exact Hall|by apply resolve_parameters_in_int
    |cbn [sample_counter]; lia|cbn [sample_counter]; lia|lia|].
  cbn [sample_counter] in Hc. rewrite Hrun.
  destruct (fuel - length frames)%nat as [|fuel'] eqn:Hleft; [lia|].
  rewrite acquire_loop_turn by (apply loop_condition_spec; lia).
  rewrite loop_body_run.
  rewrite (read_response_frame unpack _ w' bad rest Hrest Hbad), Hnone.
  eauto.
Qed.

(** X11: [display_output] changes nothing but the standard output.  With
    or without it an acquisition ends the same way, with the same result
    tuple, the same bytes left on the port and the same number of clock
    readings; without it nothing is printed, with it the elements of
    [samples] are printed, one per turn, in the order of arrival. *)
Theorem acquire_data_cpp_display_output (self : HackEEG) (fuel : nat)
    (max_samples : Z) (duration : float) (speed : Z) (w : world object) :
  in_int max_samples → in_int (max_samples_ self) →
  (∀ smp count elapsed w',
     acquire_data_cpp unpack self fuel max_samples duration speed false w
     = Returned (smp, count, elapsed) w' →
     stdout w' = stdout w
     ∧ ∃ w'',
         acquire_data_cpp unpack self fuel max_samples duration speed true w
         = Returned (smp, count, elapsed) w''
         ∧ serial w'' = serial w' ∧ ticks w'' = ticks w'
         ∧ stdout w'' = stdout w ++ smp)
  ∧ (∀ e w',
       acquire_data_cpp unpack self fuel max_samples duration speed false w
       = Thrown e w' →
       ∃ w'',
         acquire_data_cpp unpack self fuel max_samples duration speed true w
         = Thrown e w'' ∧ serial w'' = serial w')
  ∧ (acquire_data_cpp unpack self fuel max_samples duration speed false w = OutOfFuel →
     acquire_data_cpp unpack self fuel max_samples duration speed true w = OutOfFuel)
  ∧ (acquire_data_cpp unpack self fuel max_samples duration speed false w = Undefined →
     acquire_data_cpp unpack self fuel max_samples duration speed true w = Undefined).
Proof.
  intros H1 H2.
  set (p := resolve_parameters self max_samples duration speed).
  destruct (p_max_sample_time p) as [max_sample_time|] eqn:Hmst.
  2:{ rewrite !acquire_data_cpp_undefined by exact Hmst. by repeat split. }
  rewrite !(acquire_data_cpp_run _ _ _ _ _ _ _ _ _ Hmst). fold p.
  set (st0 := LoopState (object:=object) [] 0 (double_of_int (clock w (ticks w)))).
  set (w0 := World (serial w) (clock w) (S (S (ticks w))) (stdout w)).
  pose proof (acquire_loop_display fuel (p_max_samples p) max_sample_time
                false true fuel st0 w0 w0 eq_refl eq_refl eq_refl) as Hsame.
  pose proof (acquire_loop_trace fuel (p_max_samples p) max_sample_time
                false fuel st0 w0) as Hoff.
  pose proof (acquire_loop_trace fuel (p_max_samples p) max_sample_time
                true fuel st0 w0) as Hon.
  destruct (acquire_loop unpack fuel fuel (p_max_samples p) max_sample_time
              false st0 w0) as [st1 w1|e1 w1| |];
    destruct (acquire_loop unpack fuel fuel (p_max_samples p) max_sample_time
                true st0 w0) as [st2 w2|e2 w2| |]; try done.
  - destruct Hsame as (<- & Hs & Ht).
    split; [|by repeat split].
    intros smp count elapsed w' [= <- <- <- <-].
    destruct (Hoff st1 w1) as (new & ? & Hsm & _ & _ & _ & Ho & _);
      [by apply resolve_parameters_in_int|simpl; lia|done|].
    destruct (Hon st1 w2) as (new' & ? & Hsm' & _ & _ & _ & Ho' & _);
      [by apply resolve_parameters_in_int|simpl; lia|done|].
    simpl in Ho, Ho', Hsm, Hsm'. rewrite app_nil_r in Ho.
    split; [exact Ho|]. exists w2. repeat split; try done.
    by rewrite Ho', Hsm'.
  - destruct Hsame as (<- & Hs & Ht).
    split; [intros ? ? ? ? ?; discriminate|].
    split; [|by repeat split].
    intros e w' [= <- <-]. eauto.
Qed.

(** X12: the clock readings of a completed acquisition.  The clock is read
    twice before the loop and once at the end of every turn, and at no other
    point.  [start_time] is the second reading; [end_time] is the reading
    of the last turn, or the first reading of all (the one before
    [start_time]) when no turn was made.  The third component returned is
    the expression [end_time - start_time / 1000.0] on those two readings,
    evaluated in [double] and rounded to [float] when it is stored in the
    tuple. *)
Theorem acquire_data_cpp_clock_readings (self : HackEEG) (fuel : nat)
    (max_samples : Z) (duration : float) (speed : Z) (display_output : bool)
    (w : world object) smp count elapsed w' :
  in_int max_samples → in_int (max_samples_ self) →
  acquire_data_cpp unpack self fuel max_samples duration speed display_output w
  = Returned (smp, count, elapsed) w' →
  clock w' = clock w
  ∧ ticks w' = (ticks w + 2 + length smp)%nat
  ∧ elapsed
    = double_to_float
        (double_sub
           (double_of_int (clock w match smp with
                                   | [] => ticks w
                                   | _ => (ticks w + 1 + length smp)%nat
                                   end))
           (double_div (double_of_int (clock w (S (ticks w)))) (double_of_int 1000))).
Proof.
  intros H1 H2 Hrun.
  destruct (acquire_data_cpp_Returned_defined _ _ _ _ _ _ _ _ _ _ Hrun)
    as [max_sample_time Hmst].
  revert Hrun. rewrite (acquire_data_cpp_run _ _ _ _ _ _ _ _ _ Hmst).
  destruct (acquire_loop _ _ _ _ _ _ _ _) as [st1 w1| | |] eqn:Hloop; try discriminate.
  intros [= <- <- <- <-].
  apply acquire_loop_trace in Hloop
    as (new & ? & Hsm & _ & Hc & Ht & _ & He & _);
    [|by apply resolve_parameters_in_int|simpl; lia].
  simpl in Hsm, Hc, Ht, He. rewrite Hsm, Hc, Ht. unfold elapsed_expression. rewrite He.
  repeat split; [lia|]. destruct new; [done|].
  do 4 f_equal. simpl. lia.
Qed.

(** X13: the bytes a completed acquisition uses up are the first of the
    pending bytes, with no gap, and for [count] turns of the loop they
    number at least 38 and at most 75 per turn; the bytes after them are
    still on the port. *)
Theorem acquire_data_cpp_bytes_used (self : HackEEG) (fuel : nat)
    (max_samples : Z) (duration : float) (speed : Z) (display_output : bool)
    (w : world object) smp count elapsed w' :
  in_int max_samples → in_int (max_samples_ self) →
  acquire_data_cpp unpack self fuel max_samples duration speed display_output w
  = Returned (smp, count, elapsed) w' →
  ∃ used,
    pending_bytes (serial w) = used ++ pending_bytes (serial w')
    ∧ 38 * count ≤ Z.of_nat (length used) ≤ 75 * count.
Proof.
  intros H1 H2 Hrun.
  destruct (acquire_data_cpp_Returned_defined _ _ _ _ _ _ _ _ _ _ Hrun)
    as [max_sample_time Hmst].
  revert Hrun. rewrite (acquire_data_cpp_run _ _ _ _ _ _ _ _ _ Hmst).
  destruct (acquire_loop _ _ _ _ _ _ _ _) as [st1 w1| | |] eqn:Hloop; try discriminate.
  intros [= <- <- <- <-].
  apply acquire_loop_trace in Hloop
    as (new & used & _ & Hcnt & _ & _ & _ & _ & Hpend & Hlen);
    [|by apply resolve_parameters_in_int|simpl; lia].
  simpl in Hcnt, Hpend. exists used. split; [exact Hpend|].
  rewrite Hcnt. unfold FRAME_SIZE in Hlen. lia.
Qed.

End AcquisitionBehaviour.

(** ** The sample budget [max_sample_time] *)

(** The conversion to [int], when it is defined, gives an [int] and drops
    the fraction of the number converted. *)
Lemma float_to_int_towards_zero (x : float) (z : Z) :
  float_to_int x = Some z →
  in_int z
  ∧ ((0 <= float_value x)%Q →
     (inject_Z z <= float_value x)%Q ∧ (float_value x < inject_Z z + 1)%Q)
  ∧ ((float_value x <= 0)%Q →
     (float_value x <= inject_Z z)%Q ∧ (inject_Z z - 1 < float_value x)%Q).
Proof.
  destruct x as [s|s| |s m e]; simpl; try discriminate.
  - intros [= <-]. split; [unfold in_int, INT_MIN, INT_MAX; lia|].
    unfold Qle, Qlt. simpl. lia.
  - set (magnitude := if 0 <=? e then Z.pos m * 2 ^ e else Z.pos m / 2 ^ (- e)).
    destruct ((INT_MIN <=? cond_Zopp s magnitude)
              && (cond_Zopp s magnitude <=? INT_MAX)) eqn:Hrange; [|discriminate].
    intros [= <-]. apply andb_true_iff in Hrange as [Hlo Hhi].
    apply Z.leb_le in Hlo, Hhi. split; [by split|].
    subst magnitude. destruct (Z.leb_spec 0 e) as [Hpos|Hneg].
    + assert (Hsame : cond_Zopp s (Z.pos m * 2 ^ e) = cond_Zopp s (Z.pos m) * 2 ^ e)
        by (destruct s; simpl; lia).
      rewrite Hsame. unfold Qle, Qlt. simpl. lia.
    + assert (Hden : Z.pos (2 ^ Z.to_pos (- e)) = 2 ^ (- e)).
      { rewrite Pos2Z.inj_pow, Z2Pos.id by lia. reflexivity. }
      assert (Hd : 0 < 2 ^ (- e)) by (apply Z.pow_pos_nonneg; lia).
      pose proof (Z.div_mod (Z.pos m) (2 ^ (- e)) ltac:(lia)) as Hdiv.
      pose proof (Z.mod_pos_bound (Z.pos m) (2 ^ (- e)) Hd) as Hmod.
      unfold Qle, Qlt. cbn [Qnum Qden inject_Z Qplus Qminus Qopp].
      rewrite Hden. destruct s; simpl cond_Zopp; nia.
Qed.

Section BudgetFacts.

Context {object : Type} (unpack : list byte → option (list object)).

(** X14: [max_sample_time] is the [float] product of the resolved
    [duration] and [speed] (the latter converted to [float]), with its
    fraction dropped; when the conversion is defined it is an [int], a
    positive product being rounded down and a negative one up, by less than
    1. *)
Theorem resolve_parameters_max_sample_time (self : HackEEG)
    (max_samples : Z) (duration : float) (speed : Z) (max_sample_time : Z) :
  let p := resolve_parameters self max_samples duration speed in
  let product := float_mul (p_duration p) (float_of_int (p_speed p)) in
  p_max_sample_time p = Some max_sample_time →
  in_int max_sample_time
  ∧ ((0 <= float_value product)%Q →
     (inject_Z max_sample_time <= float_value product)%Q
     ∧ (float_value product < inject_Z max_sample_time + 1)%Q)
  ∧ ((float_value product <= 0)%Q →
     (float_value product <= inject_Z max_sample_time)%Q
     ∧ (inject_Z max_sample_time - 1 < float_value product)%Q).
Proof. intros p product Hmst. by apply float_to_int_towards_zero. Qed.

(** X15: when, after default resolution, the [float] product
    [duration * speed] is below 1 (a duration shorter than one sample
    period, a negative duration or speed) or [max_samples] is zero or
    negative, and the conversion of line 80 is defined, [acquire_data_cpp]
    returns at once with no sample and count 0: it reads nothing from the
    port and prints nothing, and only the two clock readings are taken. *)
Theorem acquire_data_cpp_nothing_to_acquire (self : HackEEG) (fuel : nat)
    (max_samples : Z) (duration : float) (speed : Z) (display_output : bool)
    (w : world object) (max_sample_time : Z) :
  let p := resolve_parameters self max_samples duration speed in
  let product := float_mul (p_duration p) (float_of_int (p_speed p)) in
  p_max_sample_time p = Some max_sample_time →
  (float_value product < 1)%Q ∨ p_max_samples p ≤ 0 →
  ∃ elapsed,
    acquire_data_cpp unpack self fuel max_samples duration speed display_output w
    = Returned ([], 0, elapsed)
        (World (serial w) (clock w) (S (S (ticks w))) (stdout w)).
Proof.
  intros p product Hmst Hnone. eexists.
  apply (acquire_data_cpp_no_turn unpack _ _ _ _ _ _ _ _ Hmst). fold p.
  destruct Hnone as [Hshort|Hcap]; [|lia].
  enough (max_sample_time ≤ 0) by lia.
  destruct (float_to_int_towards_zero product max_sample_time Hmst)
    as (_ & Hpos & Hneg).
  destruct (Qlt_le_dec (float_value product) 0) as [Hlt|Hge].
  - destruct (Hneg (Qlt_le_weak _ _ Hlt)) as [_ Hup].
    assert (Hq : (inject_Z max_sample_time - 1 < 0)%Q) by (eapply Qlt_trans; eauto).
    unfold Qlt in Hq. simpl in Hq. lia.
  - destruct (Hpos Hge) as [Hlow _].
    assert (Hq : (inject_Z max_sample_time < 1)%Q) by (eapply Qle_lt_trans; eauto).
    unfold Qlt in Hq. simpl in Hq. lia.
Qed.

End BudgetFacts.

(** ** Concrete runs of the further properties *)

Lemma find_dropped_samples_bounds_witness :
  Z.max 0 (5 - Z.of_nat (length [0; 1; 3]))
  ≤ find_dropped_samples (λ sample, sample) [0; 1; 3] 5
  ≤ Z.max 0 5.
Proof.
  apply (find_dropped_samples_bounds (λ sample, sample) [0; 1; 3] 5).
  apply in_int_small. lia.
Defined.

Lemma find_dropped_samples_one_more_witness :
  find_dropped_samples (λ sample, sample) [2; 0; 1; 3] 5
  = find_dropped_samples (λ sample, sample) [0; 1; 3] 5 - 1.
Proof.
  rewrite (find_dropped_samples_one_more (λ sample, sample) 2 [0; 1; 3] 5)
    by (apply in_int_small; lia).
  reflexivity.
Defined.

Lemma find_dropped_samples_zero_iff_witness :
  find_dropped_samples (λ sample, sample) [1; 0; 2; 7] 3 = 0.
Proof.
  apply (find_dropped_samples_zero_iff (λ sample, sample) [1; 0; 2; 7] 3).
  - apply in_int_small. lia.
  - intros k Hk. exists k. split; [|reflexivity].
    assert (Hcases : k = 0 ∨ k = 1 ∨ k = 2) by lia.
    destruct Hcases as [Hk0 | [Hk1 | Hk2]]; subst k; set_solver.
Defined.

Lemma find_dropped_samples_next_count_witness :
  find_dropped_samples (λ sample, sample) [0; 1; 3] (4 + 1)
  = find_dropped_samples (λ sample, sample) [0; 1; 3] 4 + 1.
Proof.
  rewrite (find_dropped_samples_next_count (λ sample, sample) [0; 1; 3] 4)
    by (try apply in_int_small; lia).
  reflexivity.
Defined.

Lemma read_data_from_serial_port_contract_witness :
  (length (replicate 38 x01) ≤ 38)%nat
  ∧ pending_bytes [ReadBytes (replicate 40 x01)]
    = replicate 38 x01 ++ pending_bytes [ReadBytes (replicate 2 x01)].
Proof.
  destruct (read_data_from_serial_port_contract
              (fresh_world [ReadBytes (replicate 40 x01)])) as (_ & _ & Hret).
  apply (Hret (replicate 38 x01) (fresh_world [ReadBytes (replicate 2 x01)])).
  reflexivity.
Defined.

Lemma read_response_starves_witness :
  read_response fixint_unpack 7 (fresh_world [ReadBytes (replicate 20 x01)])
  = OutOfFuel
  ∧ acquire_data_cpp fixint_unpack driver_5_1_250 7 0 (float_of_int 0) 0 false
      (fresh_world [ReadBytes (replicate 20 x01)])
    = OutOfFuel.
Proof.
  destruct (read_response_starves fixint_unpack driver_5_1_250 7 0 (float_of_int 0) 0
              false (fresh_world [ReadBytes (replicate 20 x01)])) as [Hread Hacq].
  - simpl. set_solver.
  - unfold FRAME_SIZE. simpl. lia.
  - split; [exact Hread|]. apply (Hacq 250); vm_compute; reflexivity.
Defined.

Lemma read_raw_data_returns_witness :
  ∃ raw w',
    read_raw_data 1 (fresh_world [ReadBytes (replicate 20 x01);
                                  ReadBytes (replicate 40 x02)])
    = Returned raw w'
    ∧ (38 ≤ length raw < 76)%nat.
Proof.
  destruct (read_raw_data_returns 1
              (fresh_world [ReadBytes (replicate 20 x01); ReadBytes (replicate 40 x02)])
              [replicate 20 x01; replicate 40 x02] [])
    as (raw & w' & Hrun & Hlen & _).
  - reflexivity.
  - unfold FRAME_SIZE. simpl. lia.
  - simpl. lia.
  - eauto.
Defined.

Lemma acquire_data_cpp_arrival_order_witness :
  ∃ elapsed w',
    acquire_data_cpp fixint_unpack driver_5_1_250 2 2 (float_of_int 0) 0 false
      (fresh_world [ReadBytes frame_of_ones; ReadBytes frame_of_twos;
                    ReadBytes frame_of_ones])
    = Returned ([replicate 38 1; replicate 38 2], 2, elapsed) w'
    ∧ serial w' = [ReadBytes frame_of_ones].
Proof.
  apply (acquire_data_cpp_arrival_order fixint_unpack driver_5_1_250 2 2
           (float_of_int 0) 0 false
           (fresh_world [ReadBytes frame_of_ones; ReadBytes frame_of_twos;
                         ReadBytes frame_of_ones])
           [frame_of_ones; frame_of_twos] [replicate 38 1; replicate 38 2]
           [ReadBytes frame_of_ones] 250).
  - apply in_int_small. lia.
  - apply in_int_small. simpl. lia.
  - vm_compute. reflexivity.
  - reflexivity.
  - repeat constructor.
  - vm_compute. reflexivity.
  - simpl. lia.
Defined.

Lemma acquire_data_cpp_decode_error_witness :
  ∃ w',
    acquire_data_cpp fixint_unpack driver_5_1_250 3 0 (float_of_int 0) 0 false
      (fresh_world [ReadBytes frame_of_ones; ReadBytes frame_of_c1;
                    ReadBytes frame_of_twos])
    = Thrown parse_error w'
    ∧ serial w' = [ReadBytes frame_of_twos].
Proof.
  apply (acquire_data_cpp_decode_error fixint_unpack driver_5_1_250 3 0
           (float_of_int 0) 0 false
           (fresh_world [ReadBytes frame_of_ones; ReadBytes frame_of_c1;
                         ReadBytes frame_of_twos])
           [frame_of_ones] [replicate 38 1] frame_of_c1 [ReadBytes frame_of_twos] 250).
  - apply in_int_small. lia.
  - apply in_int_small. simpl. lia.
  - vm_compute. reflexivity.
  - reflexivity.
  - repeat constructor.
  - reflexivity.
  - reflexivity.
  - vm_compute. reflexivity.
  - simpl. lia.
Defined.

Lemma acquire_data_cpp_display_output_witness :
  ∃ elapsed w'',
    acquire_data_cpp fixint_unpack driver_5_1_250 2 2 (float_of_int 0) 0 true
      (fresh_world [ReadBytes frame_of_ones; ReadBytes frame_of_twos])
    = Returned ([replicate 38 1; replicate 38 2], 2, elapsed) w''
    ∧ stdout w'' = [] ++ [replicate 38 1; replicate 38 2].
Proof.
  destruct (acquire_data_cpp_display_output fixint_unpack driver_5_1_250 2 2
              (float_of_int 0) 0
              (fresh_world [ReadBytes frame_of_ones; ReadBytes frame_of_twos]))
    as (Hret & _); [apply in_int_small; simpl; lia..|].
  assert (Hrun : ∃ elapsed w',
             acquire_data_cpp fixint_unpack driver_5_1_250 2 2 (float_of_int 0) 0 false
               (fresh_world [ReadBytes frame_of_ones; ReadBytes frame_of_twos])
             = Returned ([replicate 38 1; replicate 38 2], 2, elapsed) w')
    by (do 2 eexists; vm_compute; reflexivity).
  destruct Hrun as (elapsed & w' & Hrun).
  destruct (Hret _ _ _ _ Hrun) as (_ & w'' & Hrun'' & _ & _ & Hout).
  exists elapsed, w''. split; [exact Hrun''|exact Hout].
Defined.

Lemma acquire_data_cpp_clock_readings_witness :
  ∃ smp count elapsed w',
    acquire_data_cpp fixint_unpack driver_5_1_250 1 1 (float_of_int 0) 0 false
      (fresh_world [ReadBytes frame_of_ones])
    = Returned (smp, count, elapsed) w'
    ∧ ticks w' = (0 + 2 + length smp)%nat
    ∧ elapsed
      = double_to_float
          (double_sub (double_of_int 1002000)
             (double_div (double_of_int 1000000) (double_of_int 1000))).
Proof.
  assert (Hrun : ∃ elapsed w',
             acquire_data_cpp fixint_unpack driver_5_1_250 1 1 (float_of_int 0) 0 false
               (fresh_world [ReadBytes frame_of_ones])
             = Returned ([replicate 38 1], 1, elapsed) w')
    by (do 2 eexists; vm_compute; reflexivity).
  destruct Hrun as (elapsed & w' & Hrun).
  exists [replicate 38 1], 1, elapsed, w'. split; [exact Hrun|].
  refine (proj2 (acquire_data_cpp_clock_readings fixint_unpack driver_5_1_250
                   1 1 (float_of_int 0) 0 false _ _ _ _ _ _ _ Hrun));
    apply in_int_small; simpl; lia.
Defined.

Lemma acquire_data_cpp_bytes_used_witness :
  ∃ used (w' : world Z),
    pending_bytes [ReadBytes (replicate 20 x01); ReadBytes (replicate 38 x02)]
    = used ++ pending_bytes (serial w')
    ∧ 38 * 1 ≤ Z.of_nat (length used) ≤ 75 * 1.
Proof.
  assert (Hrun : ∃ smp elapsed w',
             acquire_data_cpp fixint_unpack driver_5_1_250 1 1 (float_of_int 0) 0 false
               (fresh_world [ReadBytes (replicate 20 x01); ReadBytes (replicate 38 x02)])
             = Returned (smp, 1, elapsed) w')
    by (do 3 eexists; vm_compute; reflexivity).
  destruct Hrun as (smp & elapsed & w' & Hrun).
  destruct (acquire_data_cpp_bytes_used fixint_unpack driver_5_1_250 1 1
              (float_of_int 0) 0 false
              _ _ _ _ _ (in_int_small 1 ltac:(lia)) (in_int_small 5 ltac:(lia)) Hrun)
    as (used & Hpend & Hlen).
  exists used, w'. split; [exact Hpend|exact Hlen].
Defined.

Lemma resolve_parameters_max_sample_time_witness :
  p_max_sample_time (resolve_parameters driver_5_1_250 0 float_2_5 3) = Some 7
  ∧ in_int 7
  ∧ (inject_Z 7 <= float_value (float_mul float_2_5 (float_of_int 3)))%Q
  ∧ (float_value (float_mul float_2_5 (float_of_int 3)) < inject_Z 7 + 1)%Q.
Proof.
  assert (Hmst : p_max_sample_time (resolve_parameters driver_5_1_250 0 float_2_5 3)
                 = Some 7) by (vm_compute; reflexivity).
  split; [exact Hmst|].
  destruct (resolve_parameters_max_sample_time driver_5_1_250 0 float_2_5 3 7 Hmst)
    as (Hint & Hpos & _).
  split; [exact Hint|]. apply Hpos. vm_compute. discriminate.
Defined.

Lemma acquire_data_cpp_nothing_to_acquire_witness :
  ∃ elapsed,
    acquire_data_cpp fixint_unpack driver_5_1_250 0 0 float_0_5 1 true
      (fresh_world [ReadBytes frame_of_ones])
    = Returned ([], 0, elapsed) (World [ReadBytes frame_of_ones] clock_2ms 2 []).
Proof.
  apply (acquire_data_cpp_nothing_to_acquire fixint_unpack driver_5_1_250 0 0
           float_0_5 1 true (fresh_world [ReadBytes frame_of_ones]) 0).
  - vm_compute. reflexivity.
  - left. vm_compute. reflexivity.
Defined.
